(** * WhatsPhpLink: the Baileys WhatsApp service (server/whatsapp.ts)

    A shallow embedding of [WhatsAppService]: the connection lifecycle
    ([initialize], [connectToWhatsApp], [handleConnectionUpdate],
    [disconnect]), the inbound pipeline ([handleIncomingMessages],
    [loadContacts]) and the outbound path ([sendMessage]).

    The service is asynchronous JavaScript.  Every method is modelled as a
    computation in a state-and-exception monad over a [World] that holds the
    fields of the service object, the storage collaborator, the Socket.IO
    sink, the console, the pending timers and the environment.  A rejected
    promise is a thrown exception; state changes made before a throw are
    kept, as in JavaScript.  Each method runs to completion without
    interleaving (one event handler at a time). *)

From Stdlib Require Import ZArith String List Bool Lia.
From stdpp Require Import base option list gmap strings.
Import ListNotations.
Local Open Scope string_scope.
Local Open Scope list_scope.

(** ** JavaScript helpers *)

Module Js.

(** A string is truthy when it is not empty. *)
Definition truthy (s : string) : bool := negb (String.eqb s "").

(** [a || d] where [a] is a string, [null] or [undefined] and [d] a string. *)
Definition or_else (a : option string) (d : string) : string :=
  match a with
  | Some s => if truthy s then s else d
  | None => d
  end.

(** [a || null]. *)
Definition or_null (a : option string) : option string :=
  match a with
  | Some s => if truthy s then Some s else None
  | None => None
  end.

(** [s.includes(needle)]. *)
Fixpoint includes (needle s : string) {struct s} : bool :=
  String.prefix needle s ||
  match s with
  | EmptyString => false
  | String _ s' => includes needle s'
  end.

(** [s.split(sep)[0]] for a non-empty separator: the part of [s] before
    the first occurrence of [sep], the whole of [s] when there is none. *)
Fixpoint split_head (sep s : string) {struct s} : string :=
  match s with
  | EmptyString => EmptyString
  | String c s' =>
      if String.prefix sep s then EmptyString else String c (split_head sep s')
  end.

End Js.

(** ** Exceptions and results *)

(** A thrown [Error]; only its [message] is observed by the service. *)
Inductive Exn := Error (message : string).

Definition error_message (e : Exn) : string := let 'Error m := e in m.

Inductive Result (A : Type) :=
| Ok (a : A)
| Thrown (e : Exn).
Arguments Ok {A} a.
Arguments Thrown {A} e.

(** ** The storage collaborator (./storage) *)

Module Storage.

Record Session := {
  phoneNumber : option string;
  isConnected : bool;
  qrCode : option string;
  lastConnected : option Z
}.

(** The argument of [updateSession]: a partial Session.  A field is
    [None] when the object literal does not mention it, [Some v] when it
    sets it (to [null] when [v] is [None]). *)
Record SessionUpdate := {
  set_phoneNumber : option (option string);
  set_isConnected : option bool;
  set_qrCode : option (option string);
  set_lastConnected : option Z
}.

Record Contact := {
  id : string;
  name : option string;
  number : string;
  pushname : option string;
  isGroup : bool
}.

Record Message := {
  chatId : string;
  from : string;
  to : string;
  body : string;
  timestamp : Z;
  isFromMe : bool
}.

Record Store := {
  session : option Session;
  contacts : gmap string Contact;
  messages : list Message
}.

Definition empty_session : Session :=
  {| phoneNumber := None; isConnected := false; qrCode := None;
     lastConnected := None |}.

(** Modelled from the spec: [updateSession(partial Session)] of the
    storage module, which is not part of the sources.  The fields the
    partial record mentions overwrite those of the singleton Session, the
    others are kept; a Session that does not exist yet is created. *)
Definition merge (u : SessionUpdate) (s : Session) : Session :=
  {| phoneNumber := default (phoneNumber s) (set_phoneNumber u);
     isConnected := default (isConnected s) (set_isConnected u);
     qrCode := default (qrCode s) (set_qrCode u);
     lastConnected :=
       match set_lastConnected u with
       | Some t => Some t
       | None => lastConnected s
       end |}.

Definition updateSession (u : SessionUpdate) (st : Store) : Store :=
  {| session := Some (merge u (default empty_session (session st)));
     contacts := contacts st;
     messages := messages st |}.

(** Modelled from the spec: [createOrUpdateContact(Contact)] of the
    storage module, an upsert keyed by the chat identifier. *)
Definition createOrUpdateContact (c : Contact) (st : Store) : Store :=
  {| session := session st;
     contacts := <[id c := c]> (contacts st);
     messages := messages st |}.

Definition getContact (chat : string) (st : Store) : option Contact :=
  contacts st !! chat.

(** Modelled from the spec: [createMessage(Message)] of the storage
    module; messages are append-only. *)
Definition createMessage (m : Message) (st : Store) : Store :=
  {| session := session st;
     contacts := contacts st;
     messages := messages st ++ [m] |}.

(** The Session invariant: [isConnected == true] implies
    [qrCode == null]. *)
Definition session_ok (s : option Session) : Prop :=
  match s with
  | Some r => isConnected r = true -> qrCode r = None
  | None => True
  end.

End Storage.

(** ** Baileys and Socket.IO data *)

(** A [WASocket] handle.  [user] is [sock.user?.id], the identity of the
    account once the transport knows it. *)
Record WASocket := {
  sockId : nat;
  user : option string
}.

Inductive SocketIOServer := IOServer (server : nat).

(** [DisconnectReason.loggedOut] of Baileys. *)
Definition loggedOut : Z := 401.

Inductive WAConnectionState := conn_connecting | conn_open | conn_close.

(** [lastDisconnect.error] read as a Boom error: [output?.statusCode]. *)
Record Boom := { statusCode : option Z }.

Record LastDisconnect := { error : option Boom }.

(** [Partial<ConnectionState>]: the fields [handleConnectionUpdate] reads. *)
Record ConnectionUpdate := {
  connection : option WAConnectionState;
  lastDisconnect : option LastDisconnect;
  qr : option string
}.

Record MessageKey := {
  remoteJid : option string;
  fromMe : bool
}.

Record ExtendedTextMessage := { text : option string }.

Record MessageContent := {
  conversation : option string;
  extendedTextMessage : option ExtendedTextMessage
}.

(** An item of a [messages.upsert] batch. *)
Record WAMessage := {
  key : MessageKey;
  message : option MessageContent;
  pushName : option string;
  messageTimestamp : Z
}.

(** Payloads emitted on the Socket.IO server. *)
Inductive Event :=
| EvQr (code : string)
| EvDisconnected (reason : string)
| EvReady
| EvMessage (chatId from body : string).

Inductive ConsoleLine :=
| ConsoleLog (line : string)
| ConsoleLogBool (line : string) (flag : bool)
| ConsoleLogLoaded (count : nat)
| ConsoleError (line : string) (e : Exn).

(** The callback handed to [setTimeout]; the service has one:
    [() => { this.connectToWhatsApp(); }]. *)
Inductive TimerCallback := Reconnect.

Record Timer := {
  callback : TimerCallback;
  delay : Z
}.

(** Calls into the collaborators that can fail or that act on the outside:
    the Baileys transport and the writes of the storage module. *)
Inductive Call :=
| UseMultiFileAuthState (folder : string)
| FetchLatestBaileysVersion
| MakeWASocket
| EvOn (s : nat) (event : string)
| SockSendMessage (s : nat) (chatId content : string)
| SockLogout (s : nat)
| GroupFetchAllParticipating (s : nat)
| UpdateSession (u : Storage.SessionUpdate)
| CreateOrUpdateContact (c : Storage.Contact)
| CreateMessage (m : Storage.Message).

(** What the environment answers to the next fallible call. *)
Inductive Outcome := Succeeds | Fails (e : Exn).

(** ** The world *)

(** The private fields of the [WhatsAppService] object. *)
Record Service := {
  sock : option WASocket;
  io : option SocketIOServer;
  isInitialized : bool;
  qrCode : option string
}.

Record World := {
  this : Service;
  db : Storage.Store;
  emitted : list Event;          (* events emitted on [io], oldest first *)
  console : list ConsoleLine;
  timers : list Timer;           (* pending [setTimeout] timers *)
  trace : list Call;             (* collaborator calls made, oldest first *)
  script : list Outcome;         (* outcomes of the next fallible calls;
                                    once exhausted every call succeeds *)
  now : Z;                       (* [new Date()], in milliseconds *)
  me : option string;            (* identity held by the stored credentials *)
  chats : list (string * option string);
                                 (* [groupFetchAllParticipating()]:
                                    chat identifier and subject *)
  nextSock : nat
}.

Definition with_this (f : Service -> Service) (w : World) : World :=
  {| this := f (this w); db := db w; emitted := emitted w;
     console := console w; timers := timers w; trace := trace w;
     script := script w; now := now w; me := me w; chats := chats w;
     nextSock := nextSock w |}.

Definition with_db (f : Storage.Store -> Storage.Store) (w : World) : World :=
  {| this := this w; db := f (db w); emitted := emitted w;
     console := console w; timers := timers w; trace := trace w;
     script := script w; now := now w; me := me w; chats := chats w;
     nextSock := nextSock w |}.

Definition with_emitted (f : list Event -> list Event) (w : World) : World :=
  {| this := this w; db := db w; emitted := f (emitted w);
     console := console w; timers := timers w; trace := trace w;
     script := script w; now := now w; me := me w; chats := chats w;
     nextSock := nextSock w |}.

Definition with_console (f : list ConsoleLine -> list ConsoleLine)
    (w : World) : World :=
  {| this := this w; db := db w; emitted := emitted w;
     console := f (console w); timers := timers w; trace := trace w;
     script := script w; now := now w; me := me w; chats := chats w;
     nextSock := nextSock w |}.

Definition with_timers (f : list Timer -> list Timer) (w : World) : World :=
  {| this := this w; db := db w; emitted := emitted w;
     console := console w; timers := f (timers w); trace := trace w;
     script := script w; now := now w; me := me w; chats := chats w;
     nextSock := nextSock w |}.

Definition with_trace (f : list Call -> list Call) (w : World) : World :=
  {| this := this w; db := db w; emitted := emitted w;
     console := console w; timers := timers w; trace := f (trace w);
     script := script w; now := now w; me := me w; chats := chats w;
     nextSock := nextSock w |}.

Definition with_script (f : list Outcome -> list Outcome) (w : World) : World :=
  {| this := this w; db := db w; emitted := emitted w;
     console := console w; timers := timers w; trace := trace w;
     script := f (script w); now := now w; me := me w; chats := chats w;
     nextSock := nextSock w |}.

Definition with_nextSock (f : nat -> nat) (w : World) : World :=
  {| this := this w; db := db w; emitted := emitted w;
     console := console w; timers := timers w; trace := trace w;
     script := script w; now := now w; me := me w; chats := chats w;
     nextSock := f (nextSock w) |}.

Definition set_sock (s : option WASocket) (t : Service) : Service :=
  {| sock := s; io := io t; isInitialized := isInitialized t;
     qrCode := qrCode t |}.

Definition set_io (i : option SocketIOServer) (t : Service) : Service :=
  {| sock := sock t; io := i; isInitialized := isInitialized t;
     qrCode := qrCode t |}.

Definition set_isInitialized (b : bool) (t : Service) : Service :=
  {| sock := sock t; io := io t; isInitialized := b; qrCode := qrCode t |}.

Definition set_qrCode (q : option string) (t : Service) : Service :=
  {| sock := sock t; io := io t; isInitialized := isInitialized t;
     qrCode := q |}.

(** ** The monad of service methods *)

Definition M (A : Type) : Type := World -> Result A * World.

Definition ret {A} (a : A) : M A := fun w => (Ok a, w).

Definition throw {A} (e : Exn) : M A := fun w => (Thrown e, w).

Definition bind {A B} (m : M A) (k : A -> M B) : M B :=
  fun w =>
    match m w with
    | (Ok a, w') => k a w'
    | (Thrown e, w') => (Thrown e, w')
    end.

(** [try { m } catch (e) { h e }]. *)
Definition try_catch {A} (m : M A) (h : Exn -> M A) : M A :=
  fun w =>
    match m w with
    | (Ok a, w') => (Ok a, w')
    | (Thrown e, w') => h e w'
    end.

Definition gets {A} (f : World -> A) : M A := fun w => (Ok (f w), w).

Definition modify (f : World -> World) : M unit := fun w => (Ok tt, f w).

Declare Scope service_scope.
Delimit Scope service_scope with service.
Notation "x <- m ;; k" := (bind m (fun x => k))
  (at level 100, m at next level, k at level 200, right associativity)
  : service_scope.
Notation "m ;; k" := (bind m (fun _ => k))
  (at level 100, k at level 200, right associativity) : service_scope.
Local Open Scope service_scope.

(** [for (const x of xs) { body x }]; a [continue] is a [body] that
    returns at once. *)
Fixpoint for_of {A} (xs : list A) (body : A -> M unit) : M unit :=
  match xs with
  | [] => ret tt
  | x :: rest => body x ;; for_of rest body
  end.

(** The final world and the result of a run. *)
Definition exec {A} (m : M A) (w : World) : World := snd (m w).
Definition result {A} (m : M A) (w : World) : Result A := fst (m w).

(** ** Collaborator primitives *)

(** A call that the environment may fail: it is traced, and the next
    outcome of the script decides whether it throws. *)
Definition attempt (c : Call) : M unit :=
  fun w =>
    let w' := with_trace (fun t => t ++ [c]) w in
    match script w with
    | [] => (Ok tt, w')
    | Succeeds :: rest => (Ok tt, with_script (fun _ => rest) w')
    | Fails e :: rest => (Thrown e, with_script (fun _ => rest) w')
    end.

(** A traced call that does not fail. *)
Definition perform (c : Call) : M unit :=
  modify (with_trace (fun t => t ++ [c])).

Definition console_log (line : string) : M unit :=
  modify (with_console (fun l => l ++ [ConsoleLog line])).

Definition console_log_bool (line : string) (b : bool) : M unit :=
  modify (with_console (fun l => l ++ [ConsoleLogBool line b])).

Definition console_error (line : string) (e : Exn) : M unit :=
  modify (with_console (fun l => l ++ [ConsoleError line e])).

(** [this.io?.emit(...)]. *)
Definition io_emit (ev : Event) : M unit :=
  fun w =>
    match io (this w) with
    | Some _ => (Ok tt, with_emitted (fun l => l ++ [ev]) w)
    | None => (Ok tt, w)
    end.

Definition setTimeout (cb : TimerCallback) (ms : Z) : M unit :=
  modify (with_timers (fun l => l ++ [{| callback := cb; delay := ms |}])).

Definition storage_updateSession (u : Storage.SessionUpdate) : M unit :=
  attempt (UpdateSession u) ;;
  modify (with_db (Storage.updateSession u)).

(** The two reads of the storage module are taken to succeed: the failures
    the service has to cope with are those of the writes and of the
    transport. *)
Definition storage_getSession : M (option Storage.Session) :=
  gets (fun w => Storage.session (db w)).

Definition storage_getContact (chat : string) : M (option Storage.Contact) :=
  gets (fun w => Storage.getContact chat (db w)).

Definition storage_createOrUpdateContact (c : Storage.Contact) : M unit :=
  attempt (CreateOrUpdateContact c) ;;
  modify (with_db (Storage.createOrUpdateContact c)).

Definition storage_createMessage (m : Storage.Message) : M Storage.Message :=
  attempt (CreateMessage m) ;;
  modify (with_db (Storage.createMessage m)) ;;
  ret m.

Definition sock_sendMessage (s : WASocket) (chat content : string) : M unit :=
  attempt (SockSendMessage (sockId s) chat content).

Definition sock_logout (s : WASocket) : M unit :=
  attempt (SockLogout (sockId s)).

Definition sock_groupFetchAllParticipating (s : WASocket)
    : M (list (string * option string)) :=
  attempt (GroupFetchAllParticipating (sockId s)) ;;
  gets chats.

(** [makeWASocket({...})]: a new handle on success. *)
Definition makeWASocket : M WASocket :=
  attempt MakeWASocket ;;
  n <- gets nextSock ;;
  u <- gets me ;;
  modify (with_nextSock S) ;;
  ret {| sockId := n; user := u |}.

(** ** WhatsAppService *)

(** [connectToWhatsApp()]: restore the credentials, create the socket,
    register the three listeners. *)
Definition connectToWhatsApp : M unit :=
  attempt (UseMultiFileAuthState "./.sessions/baileys") ;;
  attempt FetchLatestBaileysVersion ;;
  s <- makeWASocket ;;
  modify (with_this (set_sock (Some s))) ;;
  perform (EvOn (sockId s) "creds.update") ;;
  perform (EvOn (sockId s) "connection.update") ;;
  perform (EvOn (sockId s) "messages.upsert") ;;
  console_log "Baileys WhatsApp client initialized".

(** [initialize(io)]. *)
Definition initialize (server : SocketIOServer) : M unit :=
  initialized <- gets (fun w => isInitialized (this w)) ;;
  if initialized : bool then
    console_log "WhatsApp service already initialized"
  else
    console_log "Initializing Baileys WhatsApp service..." ;;
    modify (with_this (set_io (Some server))) ;;
    modify (with_this (set_isInitialized true)) ;;
    try_catch connectToWhatsApp
      (fun e =>
         console_error "Failed to initialize WhatsApp service:" e ;;
         throw e).

(** [loadContacts()]: one Contact per participating chat. *)
Definition contactOfChat (c : string * option string) : Storage.Contact :=
  {| Storage.id := fst c;
     Storage.name := Js.or_null (snd c);
     Storage.number := Js.split_head "@" (fst c);
     Storage.pushname := Js.or_null (snd c);
     Storage.isGroup := Js.includes "@g.us" (fst c) |}.

Definition loadContact (c : string * option string) : M unit :=
  try_catch
    (storage_createOrUpdateContact (contactOfChat c))
    (fun e => console_error "Error loading contact:" e).

Definition loadContacts : M unit :=
  try_catch
    (s <- gets (fun w => sock (this w)) ;;
     match s with
     | None => ret tt
     | Some sk =>
         cs <- sock_groupFetchAllParticipating sk ;;
         for_of cs loadContact ;;
         modify (with_console (fun l => l ++ [ConsoleLogLoaded (length cs)]))
     end)
    (fun e => console_error "Error loading contacts:" e).

(** [(lastDisconnect?.error as Boom)?.output?.statusCode]. *)
Definition closeStatus (u : ConnectionUpdate) : option Z :=
  match lastDisconnect u with
  | Some ld =>
      match error ld with
      | Some b => statusCode b
      | None => None
      end
  | None => None
  end.

(** [statusCode !== DisconnectReason.loggedOut]. *)
Definition shouldReconnect (u : ConnectionUpdate) : bool :=
  match closeStatus u with
  | Some c => negb (Z.eqb c loggedOut)
  | None => true
  end.

Definition qrUpdate (q : string) : Storage.SessionUpdate :=
  {| Storage.set_phoneNumber := None;
     Storage.set_isConnected := Some false;
     Storage.set_qrCode := Some (Some q);
     Storage.set_lastConnected := None |}.

Definition closedUpdate : Storage.SessionUpdate :=
  {| Storage.set_phoneNumber := Some None;
     Storage.set_isConnected := Some false;
     Storage.set_qrCode := Some None;
     Storage.set_lastConnected := None |}.

Definition openUpdate (phone : option string) (t : Z) : Storage.SessionUpdate :=
  {| Storage.set_phoneNumber := Some phone;
     Storage.set_isConnected := Some true;
     Storage.set_qrCode := Some None;
     Storage.set_lastConnected := Some t |}.

(** [this.sock?.user?.id]. *)
Definition sockUser (s : option WASocket) : option string :=
  match s with
  | Some sk => user sk
  | None => None
  end.

(** [handleConnectionUpdate(update)]. *)
Definition handleConnectionUpdate (u : ConnectionUpdate) : M unit :=
  match Js.or_null (qr u) with
  | Some q =>
      console_log "QR code received" ;;
      modify (with_this (set_qrCode (Some q))) ;;
      storage_updateSession (qrUpdate q) ;;
      io_emit (EvQr q)
  | None => ret tt
  end ;;
  match connection u with
  | Some conn_close =>
      console_log_bool "Connection closed. Reconnecting:" (shouldReconnect u) ;;
      storage_updateSession closedUpdate ;;
      io_emit (EvDisconnected "Connection closed") ;;
      if shouldReconnect u then setTimeout Reconnect 3000 else ret tt
  | Some conn_open =>
      console_log "WhatsApp connected successfully" ;;
      modify (with_this (set_qrCode None)) ;;
      s <- gets (fun w => sock (this w)) ;;
      t <- gets now ;;
      storage_updateSession
        (openUpdate (Js.or_null (option_map (Js.split_head ":") (sockUser s))) t) ;;
      io_emit EvReady ;;
      loadContacts
  | _ => ret tt
  end.

(** The loop body of [handleIncomingMessages]. *)
Definition inboundChatId (msg : WAMessage) : string :=
  Js.or_else (remoteJid (key msg)) "".

Definition inboundBody (c : MessageContent) : string :=
  Js.or_else (conversation c)
    (Js.or_else
       (match extendedTextMessage c with
        | Some x => text x
        | None => None
        end) "").

Definition inboundContact (msg : WAMessage) : Storage.Contact :=
  {| Storage.id := inboundChatId msg;
     Storage.name := Js.or_null (pushName msg);
     Storage.number := Js.split_head "@" (inboundChatId msg);
     Storage.pushname := Js.or_null (pushName msg);
     Storage.isGroup := Js.includes "@g.us" (inboundChatId msg) |}.

Definition inboundMessage (s : option WASocket) (msg : WAMessage)
    (c : MessageContent) : Storage.Message :=
  {| Storage.chatId := inboundChatId msg;
     Storage.from := inboundChatId msg;
     Storage.to := Js.or_else (sockUser s) "";
     Storage.body := inboundBody c;
     Storage.timestamp := messageTimestamp msg * 1000;
     Storage.isFromMe := false |}.

Definition ingest (msg : WAMessage) : M unit :=
  match message msg with
  | None => ret tt
  | Some c =>
      if fromMe (key msg) then ret tt
      else
        try_catch
          (storage_createOrUpdateContact (inboundContact msg) ;;
           s <- gets (fun w => sock (this w)) ;;
           saved <- storage_createMessage (inboundMessage s msg c) ;;
           io_emit (EvMessage (inboundChatId msg) (inboundChatId msg)
                      (inboundBody c)))
          (fun e => console_error "Error processing message:" e)
  end.

(** [handleIncomingMessages(messages)]. *)
Definition handleIncomingMessages (msgs : list WAMessage) : M unit :=
  for_of msgs ingest.

(** The chat identifier [sendMessage] derives from [to]. *)
Definition normalizeChatId (to : string) : string :=
  if negb (Js.includes "@" to) then to ++ "@s.whatsapp.net" else to.

Definition outboundContact (to : string) : Storage.Contact :=
  {| Storage.id := normalizeChatId to;
     Storage.name := None;
     Storage.number := to;
     Storage.pushname := None;
     Storage.isGroup := Js.includes "@g.us" (normalizeChatId to) |}.

Definition outboundMessage (sk : WASocket) (to content : string) (t : Z)
    : Storage.Message :=
  {| Storage.chatId := normalizeChatId to;
     Storage.from := Js.or_else (user sk) (normalizeChatId to);
     Storage.to := normalizeChatId to;
     Storage.body := content;
     Storage.timestamp := t;
     Storage.isFromMe := true |}.

(** [session?.isConnected]. *)
Definition sessionConnected (s : option Storage.Session) : bool :=
  match s with
  | Some r => Storage.isConnected r
  | None => false
  end.

(** [sendMessage(to, message)]. *)
Definition sendMessage (to content : string) : M Storage.Message :=
  s <- gets (fun w => sock (this w)) ;;
  match s with
  | None => throw (Error "WhatsApp client not initialized")
  | Some sk =>
      session <- storage_getSession ;;
      if negb (sessionConnected session) then
        throw (Error "WhatsApp is not connected")
      else
        try_catch
          (sock_sendMessage sk (normalizeChatId to) content ;;
           contact <- storage_getContact (normalizeChatId to) ;;
           match contact with
           | None => storage_createOrUpdateContact (outboundContact to)
           | Some _ => ret tt
           end ;;
           t <- gets now ;;
           savedMessage <- storage_createMessage (outboundMessage sk to content t) ;;
           ret savedMessage)
          (fun e =>
             console_error "Error sending message:" e ;;
             throw (Error (Js.or_else (Some (error_message e))
                             "Failed to send message")))
  end.

(** [disconnect()]. *)
Definition disconnect : M unit :=
  try_catch
    (s <- gets (fun w => sock (this w)) ;;
     match s with
     | Some sk =>
         sock_logout sk ;;
         modify (with_this (set_sock None))
     | None => ret tt
     end ;;
     storage_updateSession closedUpdate ;;
     modify (with_this (set_isInitialized false)) ;;
     console_log "WhatsApp disconnected successfully")
    (fun e =>
       console_error "Error disconnecting:" e ;;
       throw e).

(** ** Timers *)

Definition run_callback (cb : TimerCallback) : M unit :=
  match cb with
  | Reconnect => connectToWhatsApp
  end.

(** The oldest pending timer expires: it leaves the pending list and its
    callback runs.  The callback neither awaits nor catches the promise of
    [connectToWhatsApp]: a [Thrown] result of [fire] is that promise
    rejecting with no handler. *)
Definition fire : M unit :=
  ts <- gets timers ;;
  match ts with
  | [] => ret tt
  | t :: rest =>
      modify (with_timers (fun _ => rest)) ;;
      run_callback (callback t)
  end.

(** A fresh process: the exported singleton before any call. *)
Definition fresh_world : World :=
  {| this := {| sock := None; io := None; isInitialized := false;
                qrCode := None |};
     db := {| Storage.session := None; Storage.contacts := ∅;
              Storage.messages := [] |};
     emitted := []; console := []; timers := []; trace := []; script := [];
     now := 0; me := None; chats := []; nextSock := 0 |}.

(** ** Vocabulary for the statements *)

(** A computation that never throws. *)
Definition total {A} (m : M A) : Prop :=
  forall w, exists a, result m w = Ok a.

(** A property of the world that a computation keeps, whatever its
    outcome. *)
Definition preserves (P : World -> Prop) {A} (m : M A) : Prop :=
  forall w, P w -> P (exec m w).

(** ** Scenarios *)

Definition server : SocketIOServer := IOServer 0.

(** The credentials cannot be restored: the first call of
    [connectToWhatsApp] fails. *)
Definition world_connect_refused : World :=
  with_script (fun _ => [Fails (Error "ECONNREFUSED")]) fresh_world.

(** A closure that is not a logout (428, connection closed). *)
Definition closed_by_peer : ConnectionUpdate :=
  {| connection := Some conn_close;
     lastDisconnect := Some {| error := Some {| statusCode := Some 428%Z |} |};
     qr := None |}.

(** A closure after a logout. *)
Definition closed_by_logout : ConnectionUpdate :=
  {| connection := Some conn_close;
     lastDisconnect :=
       Some {| error := Some {| statusCode := Some loggedOut |} |};
     qr := None |}.

Definition opened : ConnectionUpdate :=
  {| connection := Some conn_open; lastDisconnect := None; qr := None |}.

(** The service after [initialize(io)] on an account with stored
    credentials. *)
Definition world_started : World :=
  exec (initialize server)
    {| this := this fresh_world; db := db fresh_world; emitted := [];
       console := []; timers := []; trace := []; script := [];
       now := 1700000000000; me := Some "4915112345:7@s.whatsapp.net";
       chats := [("120363@g.us", Some "Family")]; nextSock := 0 |}.

(** The connection is open. *)
Definition world_open : World :=
  exec (handleConnectionUpdate opened) world_started.

(** The connection dropped and the reconnect timer is pending. *)
Definition world_reconnect_pending : World :=
  exec (handleConnectionUpdate closed_by_peer) world_open.

(** The error [sendMessage] throws when there is no open session: one of
    the two guards at the top of the method. *)
Definition NotConnected (e : Exn) : Prop :=
  e = Error "WhatsApp client not initialized" \/
  e = Error "WhatsApp is not connected".

(** The open connection, with a logout that the transport rejects. *)
Definition world_logout_fails : World :=
  with_script (fun _ => [Fails (Error "Connection Closed")]) world_open.

(** The open connection; the next send reaches the remote side, the Contact
    write succeeds and the Message write fails. *)
Definition world_insert_fails : World :=
  with_script
    (fun _ => [Succeeds; Succeeds; Fails (Error "insert failed")]) world_open.

(** The service is started and the next storage write fails. *)
Definition world_write_fails : World :=
  with_script (fun _ => [Fails (Error "database unavailable")]) world_open.

(** A QR challenge. *)
Definition challenged : ConnectionUpdate :=
  {| connection := Some conn_connecting; lastDisconnect := None;
     qr := Some "2@kq7TzbE0,pairing" |}.

(** The service has shown a QR code and waits for the scan. *)
Definition world_awaiting_qr : World :=
  exec (handleConnectionUpdate challenged) world_started.

(** A partial Session whose merge satisfies the invariant whatever the
    record was before: it clears [isConnected] or it clears [qrCode]. *)
Definition safe_update (u : Storage.SessionUpdate) : Prop :=
  Storage.set_isConnected u = Some false \/ Storage.set_qrCode u = Some None.

Definition safe_call (c : Call) : Prop :=
  match c with
  | UpdateSession u => safe_update u
  | _ => True
  end.

(** No failure is left in the script: every further call succeeds. *)
Definition quiet (s : list Outcome) : Prop := Forall (eq Succeeds) s.

(** The store holds a Contact under the chat identifier [k]. *)
Definition contact_at (k : string) (w : World) : Prop :=
  exists c, Storage.contacts (db w) !! k = Some c /\ Storage.id c = k.

(** The Message [m] is the record of the inbound item [msg]: the item has
    content and is not our own, [m] is filed under the item's routing
    identifier ([msg.key.remoteJid || ""]), comes from that identifier and
    is not marked as ours. *)
Definition inbound_of (msg : WAMessage) (m : Storage.Message) : Prop :=
  message msg <> None /\
  fromMe (key msg) = false /\
  Storage.chatId m = Js.or_else (remoteJid (key msg)) "" /\
  Storage.from m = Storage.chatId m /\
  Storage.isFromMe m = false.

(** The event that announces a stored Message. *)
Definition message_event (m : Storage.Message) : Event :=
  EvMessage (Storage.chatId m) (Storage.from m) (Storage.body m).

(** A batch of three text messages. *)
Definition text_from (jid content : string) (t : Z) : WAMessage :=
  {| key := {| remoteJid := Some jid; fromMe := false |};
     message := Some {| conversation := Some content;
                        extendedTextMessage := None |};
     pushName := Some "Ada";
     messageTimestamp := t |}.

Definition item1 : WAMessage := text_from "111@s.whatsapp.net" "one" 1700000001.
Definition item2 : WAMessage := text_from "222@s.whatsapp.net" "two" 1700000002.
Definition item3 : WAMessage := text_from "333@g.us" "three" 1700000003.

(** The open connection; the writes of the first item succeed, the Message
    write of the second fails. *)
Definition world_item2_fails : World :=
  with_script
    (fun _ => [Succeeds; Succeeds; Succeeds; Fails (Error "insert failed")])
    world_open.

(** ** The accessor and further vocabulary *)

(** [getClient()]. *)
Definition getClient : M (option WASocket) :=
  gets (fun w => sock (this w)).

(** The Message an inbound item gives rise to, if it is not skipped. *)
Definition inboundRecord (s : option WASocket) (msg : WAMessage)
    : option Storage.Message :=
  match message msg with
  | None => None
  | Some c => if fromMe (key msg) then None else Some (inboundMessage s msg c)
  end.

(** An item the pipeline skips: no content, or sent by this account. *)
Definition skipped (msg : WAMessage) : Prop :=
  message msg = None \/ fromMe (key msg) = true.

(** Calls that write Contacts or Messages. *)
Definition record_write (c : Call) : Prop :=
  match c with
  | CreateOrUpdateContact _ | CreateMessage _ => True
  | _ => False
  end.

(** Calls that register a listener. *)
Definition listener_call (c : Call) : Prop :=
  match c with
  | EvOn _ _ => True
  | _ => False
  end.

(** What [connectToWhatsApp] asks of the transport when all goes well, for
    the socket with handle [n]. *)
Definition connect_calls (n : nat) : list Call :=
  [UseMultiFileAuthState "./.sessions/baileys"; FetchLatestBaileysVersion;
   MakeWASocket; EvOn n "creds.update"; EvOn n "connection.update";
   EvOn n "messages.upsert"].

(** The reconnect timer is pending and the transport is unreachable. *)
Definition world_reconnect_refused : World :=
  with_script (fun _ => [Fails (Error "ECONNREFUSED")]) world_reconnect_pending.

(** An update that carries an empty QR string while connecting. *)
Definition connecting_empty_qr : ConnectionUpdate :=
  {| connection := Some conn_connecting; lastDisconnect := None;
     qr := Some "" |}.

(** A batch the pipeline has nothing to do with: our own message, and a
    protocol item without content. *)
Definition own_message : WAMessage :=
  {| key := {| remoteJid := Some "111@s.whatsapp.net"; fromMe := true |};
     message := Some {| conversation := Some "sent from the phone";
                        extendedTextMessage := None |};
     pushName := None;
     messageTimestamp := 1700000004 |}.

Definition receipt : WAMessage :=
  {| key := {| remoteJid := Some "111@s.whatsapp.net"; fromMe := false |};
     message := None;
     pushName := None;
     messageTimestamp := 1700000005 |}.

(** The next fallible call succeeds. *)
Definition next_succeeds (w : World) : Prop :=
  script w = [] \/ exists rest, script w = Succeeds :: rest.

(** The Contact write [loadContacts] makes for a chat. *)
Definition contact_write (c : string * option string) : Call :=
  CreateOrUpdateContact (contactOfChat c).

(** The open connection; the write of the first synced contact fails. *)
Definition world_sync_write_fails : World :=
  {| this := this world_open; db := db world_open; emitted := [];
     console := []; timers := []; trace := [];
     script := [Succeeds; Fails (Error "insert failed")];
     now := now world_open; me := me world_open;
     chats := [("120363@g.us", Some "Family"); ("120364@g.us", None)];
     nextSock := nextSock world_open |}.

(** The open connection with a transport that rejects the next send,
    without a message in the error. *)
Definition world_send_fails : World :=
  with_script (fun _ => [Fails (Error "")]) world_open.

(** The open connection; the logout succeeds and the Session write that
    follows fails. *)
Definition world_disconnect_write_fails : World :=
  with_script
    (fun _ => [Succeeds; Fails (Error "database unavailable")]) world_open.

(** * Reasoning about runs *)

(** ** Equations of the monad *)

Lemma run_bind {A B} (m : M A) (k : A -> M B) (w : World) :
  bind m k w =
  match result m w with
  | Ok a => k a (exec m w)
  | Thrown e => (Thrown e, exec m w)
  end.
Proof. unfold bind, result, exec. destruct (m w) as [[a|e] w']; reflexivity. Qed.

Lemma run_try_catch {A} (m : M A) (h : Exn -> M A) (w : World) :
  try_catch m h w =
  match result m w with
  | Ok a => (Ok a, exec m w)
  | Thrown e => h e (exec m w)
  end.
Proof.
  unfold try_catch, result, exec. destruct (m w) as [[a|e] w']; reflexivity.
Qed.

Lemma exec_bind {A B} (m : M A) (k : A -> M B) (w : World) :
  exec (bind m k) w =
  match result m w with
  | Ok a => exec (k a) (exec m w)
  | Thrown _ => exec m w
  end.
Proof. unfold exec at 1. rewrite run_bind. destruct (result m w); reflexivity. Qed.

Lemma result_bind {A B} (m : M A) (k : A -> M B) (w : World) :
  result (bind m k) w =
  match result m w with
  | Ok a => result (k a) (exec m w)
  | Thrown e => Thrown e
  end.
Proof. unfold result at 1. rewrite run_bind. destruct (result m w); reflexivity. Qed.

Lemma total_unit (m : M unit) : total m -> forall w, result m w = Ok tt.
Proof. intros H w. destruct (H w) as [[] Hw]. exact Hw. Qed.

Lemma total_ret {A} (a : A) : total (ret a).
Proof. intros w. exists a. reflexivity. Qed.

Lemma total_modify (f : World -> World) : total (modify f).
Proof. intros w. exists tt. reflexivity. Qed.

Lemma total_gets {A} (f : World -> A) : total (gets f).
Proof. intros w. eexists. reflexivity. Qed.

Lemma total_bind {A B} (m : M A) (k : A -> M B) :
  total m -> (forall a, total (k a)) -> total (bind m k).
Proof.
  intros Hm Hk w. rewrite result_bind. destruct (Hm w) as [a ->]. apply Hk.
Qed.

Lemma total_try_catch {A} (m : M A) (h : Exn -> M A) :
  (forall e, total (h e)) -> total (try_catch m h).
Proof.
  intros Hh w. unfold result. rewrite run_try_catch.
  destruct (result m w) as [a|e]; [exists a; reflexivity | apply Hh].
Qed.

Lemma total_for_of {A} (xs : list A) (body : A -> M unit) :
  (forall x, total (body x)) -> total (for_of xs body).
Proof.
  intros Hb. induction xs as [|x xs IH]; simpl.
  - apply total_ret.
  - apply total_bind; [apply Hb | intros _; exact IH].
Qed.

Lemma total_io_emit (ev : Event) : total (io_emit ev).
Proof. intros w. exists tt. unfold result, io_emit. destruct (io (this w)); reflexivity. Qed.

(** ** Properties of the world kept by a computation, whatever its outcome *)

Section Preservation.

Variable P : World -> Prop.

Lemma preserves_ret {A} (a : A) : preserves P (ret a).
Proof. intros w H. exact H. Qed.

Lemma preserves_throw {A} (e : Exn) : preserves P (@throw A e).
Proof. intros w H. exact H. Qed.

Lemma preserves_gets {A} (f : World -> A) : preserves P (gets f).
Proof. intros w H. exact H. Qed.

Lemma preserves_modify (f : World -> World) :
  (forall w, P w -> P (f w)) -> preserves P (modify f).
Proof. intros Hf w H. apply Hf, H. Qed.

Lemma preserves_bind {A B} (m : M A) (k : A -> M B) :
  preserves P m -> (forall a, preserves P (k a)) -> preserves P (bind m k).
Proof.
  intros Hm Hk w H. rewrite exec_bind.
  destruct (result m w); [apply Hk|]; apply Hm, H.
Qed.

Lemma preserves_try_catch {A} (m : M A) (h : Exn -> M A) :
  preserves P m -> (forall e, preserves P (h e)) -> preserves P (try_catch m h).
Proof.
  intros Hm Hh w H. unfold exec. rewrite run_try_catch.
  destruct (result m w); [|apply Hh]; apply Hm, H.
Qed.

Lemma preserves_for_of {A} (xs : list A) (body : A -> M unit) :
  (forall x, preserves P (body x)) -> preserves P (for_of xs body).
Proof.
  intros Hb. induction xs as [|x xs IH]; simpl.
  - apply preserves_ret.
  - apply preserves_bind; [apply Hb | intros _; exact IH].
Qed.

(** The properties we follow do not read the script or the console; what
    a traced call does to them is asked call by call. *)
Hypothesis P_script : forall f w, P w -> P (with_script f w).
Hypothesis P_console : forall f w, P w -> P (with_console f w).

Lemma preserves_attempt (c : Call) :
  (forall w, P w -> P (with_trace (fun t => t ++ [c]) w)) ->
  preserves P (attempt c).
Proof.
  intros Hc w H. unfold exec, attempt.
  destruct (script w) as [|[|e] rest]; simpl; auto.
Qed.

Lemma preserves_perform (c : Call) :
  (forall w, P w -> P (with_trace (fun t => t ++ [c]) w)) ->
  preserves P (perform c).
Proof. intros Hc. apply preserves_modify. auto. Qed.

Lemma preserves_console_log (s : string) : preserves P (console_log s).
Proof. apply preserves_modify. auto. Qed.

Lemma preserves_console_log_bool (s : string) (b : bool) :
  preserves P (console_log_bool s b).
Proof. apply preserves_modify. auto. Qed.

Lemma preserves_console_error (s : string) (e : Exn) :
  preserves P (console_error s e).
Proof. apply preserves_modify. auto. Qed.

Lemma preserves_io_emit (ev : Event) :
  (forall f w, P w -> P (with_emitted f w)) -> preserves P (io_emit ev).
Proof.
  intros He w H. unfold exec, io_emit. destruct (io (this w)); simpl; auto.
Qed.

End Preservation.

(** Walks through a method and reduces [preserves P m] to what the
    modifications of the world do to [P]. *)
Ltac preserve_step :=
  match goal with
  | |- preserves _ (bind _ _) => apply preserves_bind
  | |- preserves _ (try_catch _ _) => apply preserves_try_catch
  | |- preserves _ (for_of _ _) => apply preserves_for_of
  | |- preserves _ (ret _) => apply preserves_ret
  | |- preserves _ (throw _) => apply preserves_throw
  | |- preserves _ (gets _) => apply preserves_gets
  | |- preserves _ (attempt _) => apply preserves_attempt
  | |- preserves _ (perform _) => apply preserves_perform
  | |- preserves _ (console_log _) => apply preserves_console_log
  | |- preserves _ (console_log_bool _ _) => apply preserves_console_log_bool
  | |- preserves _ (console_error _ _) => apply preserves_console_error
  | |- preserves _ (io_emit _) => apply preserves_io_emit
  | |- preserves _ (modify _) => apply preserves_modify
  | |- preserves _ (setTimeout _ _) => unfold setTimeout
  | |- preserves _ (storage_updateSession _) => unfold storage_updateSession
  | |- preserves _ (storage_createOrUpdateContact _) =>
      unfold storage_createOrUpdateContact
  | |- preserves _ (storage_createMessage _) => unfold storage_createMessage
  | |- preserves _ storage_getSession => unfold storage_getSession
  | |- preserves _ (storage_getContact _) => unfold storage_getContact
  | |- preserves _ (sock_sendMessage _ _ _) => unfold sock_sendMessage
  | |- preserves _ (sock_logout _) => unfold sock_logout
  | |- preserves _ (sock_groupFetchAllParticipating _) =>
      unfold sock_groupFetchAllParticipating
  | |- preserves _ makeWASocket => unfold makeWASocket
  | |- preserves _ (loadContact _) => unfold loadContact
  | |- preserves _ (match ?x with _ => _ end) => destruct x
  | |- forall _, _ => intro
  end.

Ltac preserve := repeat preserve_step; try solve [simpl in *; auto].

(** ** Facts about the lifecycle methods *)

(** No method other than [handleConnectionUpdate] and [fire] touches the
    pending timers. *)
Lemma disconnect_preserves_timers (ts : list Timer) :
  preserves (fun w => timers w = ts) disconnect.
Proof. unfold disconnect. preserve. Qed.

(** [connectToWhatsApp] always begins by restoring the credentials. *)
Lemma connect_first_call (w : World) :
  exists rest,
    trace (exec connectToWhatsApp w) =
    trace w ++ UseMultiFileAuthState "./.sessions/baileys" :: rest.
Proof.
  destruct w as [t d em co ti tr sc nw m ch nx].
  unfold connectToWhatsApp, exec, bind, attempt, makeWASocket, perform,
    console_log, modify, gets, ret.
  destruct sc as [|[|e1] [|[|e2] [|[|e3] s3]]]; simpl;
    rewrite <- ?app_assoc; simpl; eexists; reflexivity.
Qed.

(** * The claims *)

(** ** Initialization *)

(** C1 (the code departs from the claim).  The claim: when connection
    establishment fails inside [initialize()], the error reaches the caller
    and the manager is left not marked initialized, so that a second
    [initialize()] retries.  On the code the error does reach the caller,
    but [isInitialized] was set before the attempt and stays [true]: the
    second [initialize()] only logs "already initialized", makes no call to
    the transport and leaves [sock] null. *)
Theorem initialize_failure_leaves_initialized :
  let w1 := exec (initialize server) world_connect_refused in
  let w2 := exec (initialize server) w1 in
  isInitialized (this world_connect_refused) = false /\
  result (initialize server) world_connect_refused
    = Thrown (Error "ECONNREFUSED") /\
  isInitialized (this w1) = true /\
  script w1 = [] /\
  result (initialize server) w2 = Ok tt /\
  trace w2 = trace w1 /\
  sock (this w2) = None /\
  console w2 =
    console w1 ++ [ConsoleLog "WhatsApp service already initialized"].
Proof. vm_compute. repeat split; reflexivity. Qed.

(** Once [isInitialized] is set, [initialize()] does nothing but log. *)
Lemma initialize_when_initialized (i : SocketIOServer) (w : World) :
  isInitialized (this w) = true ->
  initialize i w =
  (Ok tt,
   with_console
     (fun l => l ++ [ConsoleLog "WhatsApp service already initialized"]) w).
Proof.
  intros H. unfold initialize, bind, gets. rewrite H. reflexivity.
Qed.

(** Whatever happens in [initialize()], the flag is set afterwards. *)
Lemma initialize_sets_flag (i : SocketIOServer) (w : World) :
  isInitialized (this (exec (initialize i) w)) = true.
Proof.
  unfold initialize. rewrite exec_bind. simpl.
  destruct (isInitialized (this w)) eqn:E; [exact E|].
  rewrite !exec_bind. simpl.
  assert (H : preserves (fun w => isInitialized (this w) = true)
                (try_catch connectToWhatsApp
                   (fun e =>
                      console_error "Failed to initialize WhatsApp service:" e ;;
                      throw e))).
  { unfold connectToWhatsApp. preserve. }
  apply H. reflexivity.
Qed.

(** ** Disconnect *)

(** A pending timer that fires runs [connectToWhatsApp]. *)
Lemma fire_runs_callback (w : World) (t : Timer) (rest : list Timer) :
  timers w = t :: rest ->
  exec fire w = exec connectToWhatsApp (with_timers (fun _ => rest) w).
Proof.
  intros Ht. unfold fire, exec, bind, gets, modify. rewrite Ht.
  destruct t as [[] d]. reflexivity.
Qed.

(** C2 (amended).  [disconnect()] does not cancel a pending reconnect timer:
    the pending timers are the same before and after [disconnect()],
    whatever its outcome, and when a timer that was pending fires after the
    disconnect it runs [connectToWhatsApp], which calls the transport
    again. *)
Theorem disconnect_keeps_pending_timers (w : World) (t : Timer)
    (rest : list Timer) :
  timers w = t :: rest ->
  let w' := exec disconnect w in
  timers w' = t :: rest /\
  timers (exec fire w') = rest /\
  exists calls,
    trace (exec fire w') =
    trace w' ++ UseMultiFileAuthState "./.sessions/baileys" :: calls.
Proof.
  intros Ht w'.
  assert (Ht' : timers w' = t :: rest)
    by (apply (disconnect_preserves_timers (t :: rest)), Ht).
  split; [exact Ht'|].
  rewrite (fire_runs_callback w' t rest Ht').
  set (w1 := with_timers (fun _ => rest) w').
  split.
  - assert (H : preserves (fun w => timers w = rest) connectToWhatsApp)
      by (unfold connectToWhatsApp; preserve).
    apply H. reflexivity.
  - destruct (connect_first_call w1) as [calls Hc]. exists calls. exact Hc.
Qed.

Lemma disconnect_keeps_pending_timers_witness :
  let w' := exec disconnect world_reconnect_pending in
  timers w' = [{| callback := Reconnect; delay := 3000 |}] /\
  timers (exec fire w') = [] /\
  exists calls,
    trace (exec fire w') =
    trace w' ++ UseMultiFileAuthState "./.sessions/baileys" :: calls.
Proof.
  apply (disconnect_keeps_pending_timers world_reconnect_pending
           {| callback := Reconnect; delay := 3000 |} []).
  reflexivity.
Defined.

(** C2 (as stated, refuted).  After a closure that is not a logout the
    reconnect timer is pending; [disconnect()] succeeds, the timer is still
    pending, and when it fires a new socket is created although the service
    was disconnected explicitly. *)
Lemma disconnect_cancels_timer_counterexample :
  let w' := exec disconnect world_reconnect_pending in
  timers world_reconnect_pending = [{| callback := Reconnect; delay := 3000 |}] /\
  result disconnect world_reconnect_pending = Ok tt /\
  sock (this w') = None /\
  isInitialized (this w') = false /\
  ~ timers w' = [] /\
  sock (this (exec fire w'))
    = Some {| sockId := 1; user := Some "4915112345:7@s.whatsapp.net" |}.
Proof. vm_compute. repeat split; try reflexivity. discriminate. Qed.

(** Unfolds the primitives so that a run on a world given by its fields
    computes. *)
Ltac primitives :=
  unfold storage_updateSession, storage_getSession, storage_getContact,
    storage_createOrUpdateContact, storage_createMessage, sock_sendMessage,
    sock_logout, sock_groupFetchAllParticipating, makeWASocket, setTimeout,
    io_emit, console_log, console_log_bool, console_error, perform, attempt,
    try_catch, bind, modify, gets, throw, ret, exec, result in *.

(** C3 (amended).  When the logout call on the protocol session fails,
    [disconnect()] logs the failure and throws it again to its caller; the
    Session record is not written, the manager stays marked initialized and
    keeps its socket handle. *)
Theorem disconnect_propagates_logout_failure (w : World) (sk : WASocket)
    (e : Exn) (rest : list Outcome) :
  sock (this w) = Some sk ->
  script w = Fails e :: rest ->
  result disconnect w = Thrown e /\
  db (exec disconnect w) = db w /\
  this (exec disconnect w) = this w /\
  console (exec disconnect w) =
    console w ++ [ConsoleError "Error disconnecting:" e] /\
  trace (exec disconnect w) = trace w ++ [SockLogout (sockId sk)].
Proof.
  destruct w as [[s i ini q] d em co ti tr sc nw m ch nx]. simpl.
  intros -> ->. unfold disconnect. primitives. simpl. repeat split.
Qed.

Lemma disconnect_propagates_logout_failure_witness :
  result disconnect world_logout_fails = Thrown (Error "Connection Closed") /\
  db (exec disconnect world_logout_fails) = db world_logout_fails /\
  this (exec disconnect world_logout_fails) = this world_logout_fails /\
  console (exec disconnect world_logout_fails) =
    console world_logout_fails ++
    [ConsoleError "Error disconnecting:" (Error "Connection Closed")] /\
  trace (exec disconnect world_logout_fails) =
    trace world_logout_fails ++ [SockLogout 0].
Proof.
  apply (disconnect_propagates_logout_failure world_logout_fails
           {| sockId := 0; user := Some "4915112345:7@s.whatsapp.net" |}
           (Error "Connection Closed") []); reflexivity.
Defined.

(** C3 (as stated, refuted).  On an open connection whose logout call
    fails, [disconnect()] throws, the persisted Session still says
    connected and the manager is still marked initialized. *)
Lemma disconnect_completes_counterexample :
  let w' := exec disconnect world_logout_fails in
  result disconnect world_logout_fails = Thrown (Error "Connection Closed") /\
  sessionConnected (Storage.session (db w')) = true /\
  isInitialized (this w') = true.
Proof. vm_compute. repeat split; reflexivity. Qed.

(** ** Outbound dispatch *)

Lemma normalizeChatId_cases (to : string) :
  normalizeChatId to =
  if Js.includes "@" to then to else (to ++ "@s.whatsapp.net")%string.
Proof. unfold normalizeChatId. destruct (Js.includes "@" to); reflexivity. Qed.

(** C5.  When there is no socket, or the persisted Session is absent or
    not connected, [sendMessage] throws one of the two not-connected errors
    and leaves the world as it was: no call to the transport (the trace is
    unchanged) and no Contact or Message write (the store is unchanged). *)
Theorem send_without_connection (w : World) (to content : string) :
  sock (this w) = None \/ sessionConnected (Storage.session (db w)) = false ->
  exists e,
    result (sendMessage to content) w = Thrown e /\
    NotConnected e /\
    exec (sendMessage to content) w = w /\
    trace (exec (sendMessage to content) w) = trace w /\
    Storage.contacts (db (exec (sendMessage to content) w))
      = Storage.contacts (db w) /\
    Storage.messages (db (exec (sendMessage to content) w))
      = Storage.messages (db w).
Proof.
  intros H. unfold sendMessage. primitives.
  destruct (sock (this w)) as [sk|] eqn:Es; simpl.
  - destruct H as [H|H]; [discriminate|]. rewrite H. simpl.
    exists (Error "WhatsApp is not connected").
    unfold NotConnected. auto 10.
  - exists (Error "WhatsApp client not initialized").
    unfold NotConnected. auto 10.
Qed.

Lemma send_without_connection_witness :
  exists e,
    result (sendMessage "1234567890" "hi") fresh_world = Thrown e /\
    NotConnected e /\
    exec (sendMessage "1234567890" "hi") fresh_world = fresh_world /\
    trace (exec (sendMessage "1234567890" "hi") fresh_world)
      = trace fresh_world /\
    Storage.contacts (db (exec (sendMessage "1234567890" "hi") fresh_world))
      = Storage.contacts (db fresh_world) /\
    Storage.messages (db (exec (sendMessage "1234567890" "hi") fresh_world))
      = Storage.messages (db fresh_world).
Proof.
  apply (send_without_connection fresh_world "1234567890" "hi").
  left. reflexivity.
Defined.

(** C8.  [sendMessage(to, message)] hands the transport the chat
    identifier [to] when [to] contains "@", and [to] followed by
    "@s.whatsapp.net" otherwise; the Message it returns is filed under the
    same identifier.  So "1234567890" becomes "1234567890@s.whatsapp.net"
    and "1234567890@g.us" is left as it is. *)
Theorem send_normalizes_destination (w : World) (to content : string)
    (sk : WASocket) :
  sock (this w) = Some sk ->
  sessionConnected (Storage.session (db w)) = true ->
  let chat :=
    if Js.includes "@" to then to else (to ++ "@s.whatsapp.net")%string in
  (exists calls,
     trace (exec (sendMessage to content) w) =
     trace w ++ SockSendMessage (sockId sk) chat content :: calls) /\
  (forall m,
     result (sendMessage to content) w = Ok m ->
     Storage.chatId m = chat /\ Storage.to m = chat) /\
  normalizeChatId "1234567890" = "1234567890@s.whatsapp.net" /\
  normalizeChatId "1234567890@g.us" = "1234567890@g.us".
Proof.
  intros Hs Hc chat.
  assert (Hn : normalizeChatId to = chat) by apply normalizeChatId_cases.
  clearbody chat.
  destruct w as [[s i ini q] d em co ti tr sc nw m ch nx]. simpl in *.
  subst s. unfold sendMessage. primitives. simpl. rewrite Hc. simpl.
  rewrite Hn.
  split; [|split; [|split; reflexivity]].
  - destruct sc as [|[|e1] [|[|e2] [|[|e3] s3]]]; simpl;
      destruct (Storage.getContact chat d); simpl;
      rewrite <- ?app_assoc; simpl; eexists; reflexivity.
  - intros m0.
    destruct sc as [|[|e1] [|[|e2] [|[|e3] s3]]]; simpl;
      destruct (Storage.getContact chat d); simpl;
      intros H; try discriminate; injection H as <-;
      unfold outboundMessage; simpl; rewrite Hn; auto.
Qed.

Lemma send_normalizes_destination_witness :
  (exists calls,
     trace (exec (sendMessage "1234567890" "hi") world_open) =
     trace world_open ++
     SockSendMessage 0 "1234567890@s.whatsapp.net" "hi" :: calls) /\
  (forall m,
     result (sendMessage "1234567890" "hi") world_open = Ok m ->
     Storage.chatId m = "1234567890@s.whatsapp.net" /\
     Storage.to m = "1234567890@s.whatsapp.net") /\
  normalizeChatId "1234567890" = "1234567890@s.whatsapp.net" /\
  normalizeChatId "1234567890@g.us" = "1234567890@g.us".
Proof.
  apply (send_normalizes_destination world_open "1234567890" "hi"
           {| sockId := 0; user := Some "4915112345:7@s.whatsapp.net" |});
    reflexivity.
Defined.

(** C4 (amended).  When the transport send succeeds and the Message write
    then fails with [e], [sendMessage] logs the failure and throws an error
    to its caller, carrying the message of [e] (or "Failed to send message"
    when that is empty); it does not return a Message, and none is stored,
    although the transport call was made. *)
Theorem send_throws_on_persistence_failure (w : World) (to content : string)
    (sk : WASocket) (e : Exn) (rest : list Outcome) :
  sock (this w) = Some sk ->
  sessionConnected (Storage.session (db w)) = true ->
  script w =
    Succeeds ::
    match Storage.getContact (normalizeChatId to) (db w) with
    | Some _ => []
    | None => [Succeeds]
    end ++ Fails e :: rest ->
  let w' := exec (sendMessage to content) w in
  result (sendMessage to content) w =
    Thrown (Error (Js.or_else (Some (error_message e))
                     "Failed to send message")) /\
  In (SockSendMessage (sockId sk) (normalizeChatId to) content) (trace w') /\
  Storage.messages (db w') = Storage.messages (db w) /\
  console w' = console w ++ [ConsoleError "Error sending message:" e].
Proof.
  destruct w as [[s i ini q] d em co ti tr sc nw m ch nx]. simpl.
  intros -> Hc Hsc. unfold sendMessage. primitives. simpl. rewrite Hc. simpl.
  destruct (Storage.getContact (normalizeChatId to) d) eqn:Eg;
    simpl in Hsc; subst sc; simpl; unfold Storage.getContact in *.
  - rewrite Eg. simpl. repeat split.
    rewrite <- app_assoc. apply in_or_app. right. left. reflexivity.
  - rewrite Eg. simpl. repeat split.
    rewrite <- !app_assoc. apply in_or_app. right. left. reflexivity.
Qed.

Lemma send_throws_on_persistence_failure_witness :
  let w' := exec (sendMessage "1234567890" "hi") world_insert_fails in
  result (sendMessage "1234567890" "hi") world_insert_fails =
    Thrown (Error (Js.or_else (Some (error_message (Error "insert failed")))
                     "Failed to send message")) /\
  In (SockSendMessage 0 (normalizeChatId "1234567890") "hi") (trace w') /\
  Storage.messages (db w') = Storage.messages (db world_insert_fails) /\
  console w' =
    console world_insert_fails ++
    [ConsoleError "Error sending message:" (Error "insert failed")].
Proof.
  apply (send_throws_on_persistence_failure world_insert_fails
           "1234567890" "hi"
           {| sockId := 0; user := Some "4915112345:7@s.whatsapp.net" |}
           (Error "insert failed") []); reflexivity.
Defined.

(** C4 (as stated, refuted).  The transport send succeeds (its call is in
    the trace), the Message write fails, and [sendMessage] throws instead of
    returning. *)
Lemma send_returns_success_counterexample :
  let w' := exec (sendMessage "1234567890" "hi") world_insert_fails in
  last (trace w') =
    Some (CreateMessage
            {| Storage.chatId := "1234567890@s.whatsapp.net";
               Storage.from := "4915112345:7@s.whatsapp.net";
               Storage.to := "1234567890@s.whatsapp.net";
               Storage.body := "hi";
               Storage.timestamp := 1700000000000;
               Storage.isFromMe := true |}) /\
  In (SockSendMessage 0 "1234567890@s.whatsapp.net" "hi") (trace w') /\
  result (sendMessage "1234567890" "hi") world_insert_fails
    = Thrown (Error "insert failed") /\
  Storage.messages (db w') = [].
Proof. vm_compute. repeat split; auto 20. Qed.

(** ** Reconnect policy *)

Lemma shouldReconnect_logout (u : ConnectionUpdate) :
  closeStatus u = Some loggedOut -> shouldReconnect u = false.
Proof. unfold shouldReconnect. intros ->. reflexivity. Qed.

Lemma shouldReconnect_other (u : ConnectionUpdate) :
  closeStatus u <> Some loggedOut -> shouldReconnect u = true.
Proof.
  unfold shouldReconnect. destruct (closeStatus u) as [c|]; [|reflexivity].
  intros H. destruct (Z.eqb_spec c loggedOut) as [->|]; [|reflexivity].
  contradiction H. reflexivity.
Qed.

(** C6 (amended).  A closure whose reason is the logout status schedules
    no timer, whatever else happens.  A closure with any other reason, or
    with none, whose handler completes (the Session writes succeed)
    schedules exactly one timer: it is appended to the pending ones, has the
    fixed delay of 3000 ms and its callback runs [connectToWhatsApp], the
    path [initialize()] takes. *)
Theorem close_schedules_reconnect (w : World) (u : ConnectionUpdate) :
  connection u = Some conn_close ->
  let w' := exec (handleConnectionUpdate u) w in
  (closeStatus u = Some loggedOut -> timers w' = timers w) /\
  (closeStatus u <> Some loggedOut ->
   result (handleConnectionUpdate u) w = Ok tt ->
   timers w' = timers w ++ [{| callback := Reconnect; delay := 3000 |}]) /\
  run_callback Reconnect = connectToWhatsApp.
Proof.
  intros Hc w'. subst w'.
  destruct w as [[s i ini q] d em co ti tr sc nw m ch nx].
  unfold handleConnectionUpdate. rewrite Hc. primitives. simpl.
  split; [|split; [|reflexivity]].
  - intros Hl. rewrite (shouldReconnect_logout u Hl).
    destruct (Js.or_null (qr u)), i, sc as [|[|e1] [|[|e2] s2]];
      reflexivity.
  - intros Hl. rewrite (shouldReconnect_other u Hl).
    destruct (Js.or_null (qr u)), i, sc as [|[|e1] [|[|e2] s2]];
      simpl; intros H; try discriminate; reflexivity.
Qed.

Lemma close_schedules_reconnect_witness :
  timers (exec (handleConnectionUpdate closed_by_peer) world_open) =
    timers world_open ++ [{| callback := Reconnect; delay := 3000 |}] /\
  timers (exec (handleConnectionUpdate closed_by_logout) world_open) =
    timers world_open.
Proof.
  split.
  - destruct (close_schedules_reconnect world_open closed_by_peer eq_refl)
      as (_ & H & _).
    apply H; [discriminate | reflexivity].
  - destruct (close_schedules_reconnect world_open closed_by_logout eq_refl)
      as (H & _).
    apply H. reflexivity.
Defined.

(** C6 (as stated, refuted).  The closure is not a logout, yet no reconnect
    is scheduled: the Session write of the closed transition fails, the
    handler throws and never reaches [setTimeout]. *)
Lemma close_schedules_one_counterexample :
  let w' := exec (handleConnectionUpdate closed_by_peer) world_write_fails in
  connection closed_by_peer = Some conn_close /\
  shouldReconnect closed_by_peer = true /\
  result (handleConnectionUpdate closed_by_peer) world_write_fails
    = Thrown (Error "database unavailable") /\
  timers world_write_fails = [] /\
  timers w' = [].
Proof. vm_compute. repeat split; reflexivity. Qed.

(** ** The Session invariant *)

Lemma loadContacts_frame (w : World) :
  Storage.session (db (exec loadContacts w)) = Storage.session (db w) /\
  this (exec loadContacts w) = this w.
Proof.
  split.
  - assert (H : preserves
                  (fun w' => Storage.session (db w') = Storage.session (db w))
                  loadContacts)
      by (unfold loadContacts; preserve).
    apply H. reflexivity.
  - assert (H : preserves (fun w' => this w' = this w) loadContacts)
      by (unfold loadContacts; preserve).
    apply H. reflexivity.
Qed.

(** A safe partial Session gives a record that satisfies the invariant,
    whatever the record was before. *)
Lemma safe_update_ok (u : Storage.SessionUpdate) (st : Storage.Store) :
  safe_update u ->
  Storage.session_ok (Storage.session (Storage.updateSession u st)).
Proof.
  intros [H|H]; simpl; rewrite H; simpl; [discriminate | reflexivity].
Qed.

(** The partial Sessions the lifecycle writes are safe. *)
Lemma lifecycle_updates_safe (q : string) (p : option string) (t : Z) :
  safe_update (qrUpdate q) /\ safe_update closedUpdate /\
  safe_update (openUpdate p t).
Proof. split; [|split]; [left | left | right]; reflexivity. Qed.

Ltac safe_trace :=
  simpl in *; apply Forall_app; split; [assumption|];
  constructor; [|constructor]; simpl;
  first [exact I | left; reflexivity | right; reflexivity].

Lemma handleConnectionUpdate_writes_safe (u : ConnectionUpdate) :
  preserves (fun w => Forall safe_call (trace w)) (handleConnectionUpdate u).
Proof.
  unfold handleConnectionUpdate, loadContacts. preserve; safe_trace.
Qed.

Lemma disconnect_writes_safe :
  preserves (fun w => Forall safe_call (trace w)) disconnect.
Proof. unfold disconnect. preserve; safe_trace. Qed.

Lemma handleConnectionUpdate_keeps_invariant (u : ConnectionUpdate) :
  preserves (fun w => Storage.session_ok (Storage.session (db w)))
    (handleConnectionUpdate u).
Proof.
  unfold handleConnectionUpdate, loadContacts.
  preserve; simpl; first [discriminate | reflexivity].
Qed.

Lemma disconnect_keeps_invariant :
  preserves (fun w => Storage.session_ok (Storage.session (db w))) disconnect.
Proof.
  unfold disconnect. preserve; simpl; discriminate.
Qed.

(** ** Runs of the primitives *)

Lemma result_modify (f : World -> World) (w : World) :
  result (modify f) w = Ok tt.
Proof. reflexivity. Qed.

Lemma exec_modify (f : World -> World) (w : World) :
  exec (modify f) w = f w.
Proof. reflexivity. Qed.

Lemma result_gets {A} (f : World -> A) (w : World) :
  result (gets f) w = Ok (f w).
Proof. reflexivity. Qed.

Lemma exec_gets {A} (f : World -> A) (w : World) :
  exec (gets f) w = w.
Proof. reflexivity. Qed.

Lemma io_emit_frame (ev : Event) (w : World) :
  result (io_emit ev) w = Ok tt /\
  db (exec (io_emit ev) w) = db w /\
  this (exec (io_emit ev) w) = this w.
Proof.
  unfold result, exec, io_emit. destruct (io (this w)); repeat split.
Qed.

(** A Session write either throws and changes nothing in the store, or
    merges the partial record. *)
Lemma storage_updateSession_run (u : Storage.SessionUpdate) (w : World) :
  this (exec (storage_updateSession u) w) = this w /\
  ((result (storage_updateSession u) w = Ok tt /\
    db (exec (storage_updateSession u) w) = Storage.updateSession u (db w)) \/
   (exists e, result (storage_updateSession u) w = Thrown e)).
Proof.
  destruct w as [t d em co ti tr sc nw m ch nx].
  unfold storage_updateSession, result, exec, bind, attempt, modify. simpl.
  destruct sc as [|[|e] rest]; simpl; split; eauto.
Qed.

(** When the handler of an "open" update completes, the Session it wrote
    is connected and has no QR code, and neither has the service. *)
Lemma open_clears_qr (w : World) (u : ConnectionUpdate) :
  connection u = Some conn_open ->
  result (handleConnectionUpdate u) w = Ok tt ->
  exists r,
    Storage.session (db (exec (handleConnectionUpdate u) w)) = Some r /\
    Storage.isConnected r = true /\
    Storage.qrCode r = None /\
    qrCode (this (exec (handleConnectionUpdate u) w)) = None.
Proof.
  intros Hc. unfold handleConnectionUpdate. rewrite Hc.
  rewrite result_bind, exec_bind.
  destruct (result _ w) as [[]|e0]; [|discriminate].
  generalize (exec
    match Js.or_null (qr u) with
    | Some q =>
        console_log "QR code received" ;;
        modify (with_this (set_qrCode (Some q))) ;;
        storage_updateSession (qrUpdate q) ;; io_emit (EvQr q)
    | None => ret tt
    end w).
  clear w. intros w.
  unfold console_log.
  rewrite result_bind, exec_bind, result_modify, exec_modify.
  rewrite result_bind, exec_bind, result_modify, exec_modify.
  rewrite result_bind, exec_bind, result_gets, exec_gets.
  rewrite result_bind, exec_bind, result_gets, exec_gets.
  rewrite result_bind, exec_bind.
  match goal with
  | |- context [result (storage_updateSession ?U) ?W] =>
      destruct (storage_updateSession_run U W) as [Ht [[Hr Hd]|[e Hr]]];
      rewrite Hr; [|discriminate]
  end.
  intros _. rewrite exec_bind.
  match goal with
  | |- context [result (io_emit ?E) ?W] =>
      destruct (io_emit_frame E W) as (Hr' & Hd' & Ht'); rewrite Hr'
  end.
  match goal with
  | |- context [exec loadContacts ?W] =>
      destruct (loadContacts_frame W) as [Hs'' Ht'']; rewrite Hs'', Ht''
  end.
  rewrite Hd', Ht', Hd, Ht. simpl.
  eexists. repeat split.
Qed.
(** C7.  The Session invariant ([isConnected] implies no [qrCode]) is
    kept by every run of [handleConnectionUpdate] (QR challenge, open,
    close) and of [disconnect], whether their writes succeed or fail, and
    every partial Session they hand to [updateSession] is one that yields a
    record satisfying the invariant whatever the record was before; when the
    handler of an "open" update completes, the Session it wrote is connected
    with [qrCode] null, and the service's own [qrCode] is null. *)
Theorem session_invariant_preserved (w : World) :
  Storage.session_ok (Storage.session (db w)) ->
  Forall safe_call (trace w) ->
  (forall u,
     let w' := exec (handleConnectionUpdate u) w in
     Storage.session_ok (Storage.session (db w')) /\
     Forall safe_call (trace w')) /\
  (let w' := exec disconnect w in
   Storage.session_ok (Storage.session (db w')) /\
   Forall safe_call (trace w')) /\
  (forall u,
     connection u = Some conn_open ->
     result (handleConnectionUpdate u) w = Ok tt ->
     exists r,
       Storage.session (db (exec (handleConnectionUpdate u) w)) = Some r /\
       Storage.isConnected r = true /\
       Storage.qrCode r = None /\
       qrCode (this (exec (handleConnectionUpdate u) w)) = None).
Proof.
  intros H Ht. split; [|split].
  - intros u. split.
    + apply (handleConnectionUpdate_keeps_invariant u w H).
    + apply (handleConnectionUpdate_writes_safe u w Ht).
  - split.
    + apply (disconnect_keeps_invariant w H).
    + apply (disconnect_writes_safe w Ht).
  - intros u. apply open_clears_qr.
Qed.

Lemma session_invariant_preserved_witness :
  Storage.qrCode <$> Storage.session (db world_awaiting_qr)
    = Some (Some "2@kq7TzbE0,pairing") /\
  Storage.session_ok
    (Storage.session (db (exec (handleConnectionUpdate opened)
                            world_awaiting_qr))) /\
  Forall safe_call
    (trace (exec (handleConnectionUpdate opened) world_awaiting_qr)) /\
  Storage.session_ok (Storage.session (db (exec disconnect world_awaiting_qr))) /\
  exists r,
    Storage.session (db (exec (handleConnectionUpdate opened)
                           world_awaiting_qr)) = Some r /\
    Storage.isConnected r = true /\
    Storage.qrCode r = None /\
    qrCode (this (exec (handleConnectionUpdate opened) world_awaiting_qr))
      = None.
Proof.
  assert (H0 : Storage.session_ok (Storage.session (db world_awaiting_qr)))
    by (simpl; discriminate).
  assert (T0 : Forall safe_call (trace world_awaiting_qr))
    by (vm_compute; repeat constructor).
  destruct (session_invariant_preserved world_awaiting_qr H0 T0)
    as (H1 & H2 & H3).
  split; [reflexivity|].
  split; [apply (H1 opened)|].
  split; [apply (H1 opened)|].
  split; [apply H2|].
  apply (H3 opened); reflexivity.
Defined.

(** ** Inbound pipeline *)

Lemma ingest_total (x : WAMessage) : total (ingest x).
Proof.
  unfold ingest. destruct (message x); [|apply total_ret].
  destruct (fromMe (key x)); [apply total_ret|].
  apply total_try_catch. intros e. apply total_modify.
Qed.

Lemma handleIncomingMessages_total (xs : list WAMessage) :
  total (handleIncomingMessages xs).
Proof. apply total_for_of, ingest_total. Qed.

Lemma handleIncomingMessages_cons (x : WAMessage) (xs : list WAMessage)
    (w : World) :
  handleIncomingMessages (x :: xs) w =
  handleIncomingMessages xs (exec (ingest x) w).
Proof.
  unfold handleIncomingMessages. simpl. rewrite run_bind.
  rewrite (total_unit _ (ingest_total x)). reflexivity.
Qed.

Lemma exec_handleIncomingMessages_cons (x : WAMessage) (xs : list WAMessage)
    (w : World) :
  exec (handleIncomingMessages (x :: xs)) w =
  exec (handleIncomingMessages xs) (exec (ingest x) w).
Proof.
  unfold exec at 1. rewrite handleIncomingMessages_cons. reflexivity.
Qed.

Lemma handleIncomingMessages_app (xs ys : list WAMessage) (w : World) :
  handleIncomingMessages (xs ++ ys) w =
  handleIncomingMessages ys (exec (handleIncomingMessages xs) w).
Proof.
  revert w. induction xs as [|x xs IH]; intros w.
  - reflexivity.
  - change ((x :: xs) ++ ys) with (x :: (xs ++ ys)).
    rewrite handleIncomingMessages_cons, IH,
      exec_handleIncomingMessages_cons.
    reflexivity.
Qed.

(** The pipeline never changes the fields of the service. *)
Lemma ingest_keeps_this (t : Service) (x : WAMessage) :
  preserves (fun w => this w = t) (ingest x).
Proof. unfold ingest. preserve. Qed.

Lemma handleIncomingMessages_keeps_this (t : Service) (xs : list WAMessage) :
  preserves (fun w => this w = t) (handleIncomingMessages xs).
Proof. apply preserves_for_of. intros x. apply ingest_keeps_this. Qed.

(** Messages are append-only and Contacts are never removed. *)
Lemma ingest_keeps_message (m : Storage.Message) (x : WAMessage) :
  preserves (fun w => In m (Storage.messages (db w))) (ingest x).
Proof.
  unfold ingest. preserve. simpl in *. apply in_or_app. auto.
Qed.

Lemma ingest_keeps_contact (k : string) (x : WAMessage) :
  preserves (contact_at k) (ingest x).
Proof.
  unfold ingest. preserve.
  unfold contact_at in *. simpl in *.
  destruct (decide (inboundChatId x = k)) as [E|E].
  - exists (inboundContact x). rewrite <- E.
    split; [apply lookup_insert_eq | reflexivity].
  - rewrite lookup_insert_ne by exact E. assumption.
Qed.

(** An item that is skipped leaves the world as it is. *)
Lemma ingest_skips (x : WAMessage) (w : World) :
  message x = None \/ fromMe (key x) = true -> ingest x w = (Ok tt, w).
Proof.
  unfold ingest. intros [H|H].
  - rewrite H. reflexivity.
  - rewrite H. destruct (message x); reflexivity.
Qed.

(** With no failure ahead, an item with content that is not our own is
    recorded: its Contact is upserted, its Message appended. *)
Lemma ingest_records (x : WAMessage) (c : MessageContent) (w : World) :
  quiet (script w) ->
  message x = Some c ->
  fromMe (key x) = false ->
  let w' := exec (ingest x) w in
  quiet (script w') /\
  Storage.messages (db w') =
    Storage.messages (db w) ++ [inboundMessage (sock (this w)) x c] /\
  Storage.contacts (db w') =
    <[inboundChatId x := inboundContact x]> (Storage.contacts (db w)).
Proof.
  destruct w as [[s i ini q] d em co ti tr sc nw m ch nx]. simpl.
  intros Hq Hm Hf. unfold ingest. rewrite Hm, Hf. primitives. simpl.
  destruct sc as [|o1 [|o2 s2]].
  - destruct i; simpl; repeat split; constructor.
  - inversion Hq as [|? ? <- Hq']; subst.
    destruct i; simpl; repeat split; constructor.
  - inversion Hq as [|? ? <- Hq']; subst.
    inversion Hq' as [|? ? <- Hq'']; subst.
    destruct i; simpl; repeat split; assumption.
Qed.

Lemma ingest_keeps_quiet (x : WAMessage) (w : World) :
  quiet (script w) -> quiet (script (exec (ingest x) w)).
Proof.
  intros Hq. destruct (message x) as [c|] eqn:Hm.
  - destruct (fromMe (key x)) eqn:Hf.
    + unfold exec. rewrite ingest_skips by auto. exact Hq.
    + apply (ingest_records x c w Hq Hm Hf).
  - unfold exec. rewrite ingest_skips by auto. exact Hq.
Qed.

(** With no failure ahead, every eligible item of a batch is recorded. *)
Lemma batch_records (xs : list WAMessage) (w : World) (x : WAMessage)
    (c : MessageContent) :
  quiet (script w) ->
  In x xs ->
  message x = Some c ->
  fromMe (key x) = false ->
  In (inboundMessage (sock (this w)) x c)
     (Storage.messages (db (exec (handleIncomingMessages xs) w))) /\
  contact_at (inboundChatId x) (exec (handleIncomingMessages xs) w).
Proof.
  revert w. induction xs as [|a xs IH]; intros w Hq Hin Hm Hf.
  - destruct Hin.
  - rewrite exec_handleIncomingMessages_cons.
    destruct Hin as [->|Hin].
    + destruct (ingest_records x c w Hq Hm Hf) as (_ & Hms & Hcs).
      split.
      * apply (preserves_for_of _ xs ingest
                 (fun y => ingest_keeps_message _ y)).
        rewrite Hms. apply in_or_app. right. left. reflexivity.
      * apply (preserves_for_of _ xs ingest
                 (fun y => ingest_keeps_contact _ y)).
        exists (inboundContact x). rewrite Hcs.
        split; [apply lookup_insert_eq | reflexivity].
    + assert (Ht : this (exec (ingest a) w) = this w)
        by (apply (ingest_keeps_this (this w) a w); reflexivity).
      rewrite <- Ht.
      apply IH; auto using ingest_keeps_quiet.
Qed.

(** A failure while an item is processed is caught and logged. *)
Lemma ingest_logs_failure (x : WAMessage) (c : MessageContent) (w : World)
    (e : Exn) (rest : list Outcome) :
  message x = Some c ->
  fromMe (key x) = false ->
  script w = Fails e :: rest \/ script w = Succeeds :: Fails e :: rest ->
  console (exec (ingest x) w) =
    console w ++ [ConsoleError "Error processing message:" e] /\
  Storage.messages (db (exec (ingest x) w)) = Storage.messages (db w).
Proof.
  destruct w as [[s i ini q] d em co ti tr sc nw m ch nx]. simpl.
  intros Hm Hf Hs. unfold ingest. rewrite Hm, Hf. primitives. simpl.
  destruct Hs as [->| ->]; simpl; split; reflexivity.
Qed.

(** C9.  In a batch, a failure thrown while one item is processed (by its
    Contact write or by its Message write) is caught and logged;
    [handleIncomingMessages] never throws, and continues with the items
    that follow: when no further failure occurs, each of them that has
    content and is not our own gets its Message appended and a Contact
    stored under its chat identifier. *)
Theorem ingest_failure_isolated (before after : list WAMessage)
    (bad : WAMessage) (w : World) :
  let w1 := exec (handleIncomingMessages before) w in
  let w2 := exec (ingest bad) w1 in
  let w3 := exec (handleIncomingMessages (before ++ bad :: after)) w in
  result (handleIncomingMessages (before ++ bad :: after)) w = Ok tt /\
  (forall c e rest,
     message bad = Some c ->
     fromMe (key bad) = false ->
     script w1 = Fails e :: rest \/ script w1 = Succeeds :: Fails e :: rest ->
     console w2 = console w1 ++ [ConsoleError "Error processing message:" e]) /\
  (forall x c,
     quiet (script w2) ->
     In x after ->
     message x = Some c ->
     fromMe (key x) = false ->
     In (inboundMessage (sock (this w)) x c) (Storage.messages (db w3)) /\
     contact_at (inboundChatId x) w3).
Proof.
  intros w1 w2 w3.
  split; [apply total_unit, handleIncomingMessages_total|].
  split.
  - intros c e rest Hm Hf Hs.
    apply (ingest_logs_failure bad c w1 e rest Hm Hf Hs).
  - intros x c Hq Hin Hm Hf.
    assert (E3 : w3 = exec (handleIncomingMessages after) w2).
    { subst w3 w2 w1. unfold exec at 1.
      rewrite handleIncomingMessages_app, handleIncomingMessages_cons.
      reflexivity. }
    assert (Ht : this w2 = this w).
    { subst w2 w1.
      apply (ingest_keeps_this (this w) bad).
      apply (handleIncomingMessages_keeps_this (this w) before).
      reflexivity. }
    rewrite E3, <- Ht. apply batch_records; assumption.
Qed.

Lemma ingest_failure_isolated_witness :
  let w1 := exec (handleIncomingMessages [item1]) world_item2_fails in
  let w2 := exec (ingest item2) w1 in
  let w3 :=
    exec (handleIncomingMessages [item1; item2; item3]) world_item2_fails in
  result (handleIncomingMessages [item1; item2; item3]) world_item2_fails
    = Ok tt /\
  console w2 =
    console w1 ++
    [ConsoleError "Error processing message:" (Error "insert failed")] /\
  In {| Storage.chatId := "333@g.us";
        Storage.from := "333@g.us";
        Storage.to := "4915112345:7@s.whatsapp.net";
        Storage.body := "three";
        Storage.timestamp := 1700000003000;
        Storage.isFromMe := false |}
     (Storage.messages (db w3)) /\
  contact_at "333@g.us" w3.
Proof.
  destruct (ingest_failure_isolated [item1] [item3] item2 world_item2_fails)
    as (H1 & H2 & H3).
  split; [exact H1|].
  split.
  - apply (H2 {| conversation := Some "two"; extendedTextMessage := None |}
              (Error "insert failed") []);
      [reflexivity | reflexivity | right; reflexivity].
  - apply (H3 item3
              {| conversation := Some "three"; extendedTextMessage := None |});
      [vm_compute; constructor | left; reflexivity | reflexivity
      | reflexivity].
Defined.

(** The batch of the specification: three items, the Message write of the
    second fails.  Items 1 and 3 are stored, item 2 is logged. *)
Example batch_of_three :
  let w3 :=
    exec (handleIncomingMessages [item1; item2; item3]) world_item2_fails in
  map Storage.body (Storage.messages (db w3)) = ["one"; "three"] /\
  Storage.id <$> Storage.getContact "111@s.whatsapp.net" (db w3)
    = Some "111@s.whatsapp.net" /\
  Storage.id <$> Storage.getContact "333@g.us" (db w3) = Some "333@g.us" /\
  last (console w3)
    = Some (ConsoleError "Error processing message:" (Error "insert failed")) /\
  emitted w3 =
    emitted world_item2_fails ++
    [EvMessage "111@s.whatsapp.net" "111@s.whatsapp.net" "one";
     EvMessage "333@g.us" "333@g.us" "three"].
Proof. vm_compute. repeat split; reflexivity. Qed.

Ltac failing_script H :=
  exfalso; unfold quiet in H;
  repeat (apply Forall_cons in H; destruct H as [? H]; try discriminate).

(** One item appends at most one Message, which is the record of the item,
    and emits its event when there is a Socket.IO server; with no failure
    ahead, an item with content that is not our own does get its record. *)
Lemma ingest_item_shape (x : WAMessage) (w : World) :
  exists new,
    Storage.messages (db (exec (ingest x) w)) = Storage.messages (db w) ++ new /\
    Forall (inbound_of x) new /\
    emitted (exec (ingest x) w) =
      emitted w ++
      match io (this w) with
      | Some _ => map message_event new
      | None => []
      end /\
    (quiet (script w) ->
     message x <> None ->
     fromMe (key x) = false ->
     exists m, In m new /\ inbound_of x m).
Proof.
  assert (Hskip : skipped x ->
    exists new,
      Storage.messages (db (exec (ingest x) w)) =
        Storage.messages (db w) ++ new /\
      Forall (inbound_of x) new /\
      emitted (exec (ingest x) w) =
        emitted w ++
        match io (this w) with
        | Some _ => map message_event new
        | None => []
        end /\
      (quiet (script w) ->
       message x <> None ->
       fromMe (key x) = false ->
       exists m, In m new /\ inbound_of x m)).
  { intros Hs. exists []. unfold exec. rewrite (ingest_skips x w Hs). simpl.
    rewrite app_nil_r. split; [reflexivity|]. split; [constructor|].
    split.
    - destruct (io (this w)); simpl; rewrite app_nil_r; reflexivity.
    - intros _ Hne Hf. destruct Hs as [Hs|Hs].
      + contradiction.
      + rewrite Hs in Hf. discriminate. }
  destruct (message x) as [c|] eqn:Hm; [destruct (fromMe (key x)) eqn:Hf|].
  - apply Hskip. right. exact Hf.
  - clear Hskip.
    assert (HP : inbound_of x (inboundMessage (sock (this w)) x c)).
    { unfold inbound_of. rewrite Hm, Hf. repeat split. discriminate. }
    destruct w as [[s i ini q] d em co ti tr sc nw m ch nx].
    simpl in HP.
    unfold ingest. rewrite Hm, Hf.
    destruct sc as [|[|e1] [|[|e2] s2]], i; primitives; simpl;
      first
        [ solve [ exists [inboundMessage s x c]; simpl; rewrite ?app_nil_r;
                  split; [reflexivity|];
                  split; [constructor; [exact HP | constructor]|];
                  split; [reflexivity|];
                  intros _ _ _; exists (inboundMessage s x c);
                  split; [left; reflexivity | exact HP] ]
        | solve [ exists []; simpl; rewrite ?app_nil_r;
                  split; [reflexivity|];
                  split; [constructor|];
                  split; [reflexivity|];
                  intros Hq; failing_script Hq ] ].
  - apply Hskip. left. exact Hm.
Qed.

(** C10.  Every Message that [handleIncomingMessages] appends is the record
    of an item of the batch that has content and is not our own: its
    [chatId] is that item's routing identifier ([key.remoteJid], or the
    empty string without one), its [from] equals its [chatId] and its
    [isFromMe] is false.  The "message" events emitted are, in the same
    order, those of the appended Messages, each carrying the [chatId],
    [from] and [body] of its Message.  And records are produced: with no
    failure ahead, every item with content that is not our own has its
    Message among the appended ones. *)
Theorem inbound_messages_shape (msgs : list WAMessage) (w : World) :
  let w' := exec (handleIncomingMessages msgs) w in
  exists new,
    Storage.messages (db w') = Storage.messages (db w) ++ new /\
    Forall (fun m =>
              exists x,
                In x msgs /\
                message x <> None /\
                fromMe (key x) = false /\
                Storage.chatId m = Js.or_else (remoteJid (key x)) "" /\
                Storage.from m = Storage.chatId m /\
                Storage.isFromMe m = false) new /\
    emitted w' =
      emitted w ++
      match io (this w) with
      | Some _ =>
          map (fun m => EvMessage (Storage.chatId m) (Storage.from m)
                          (Storage.body m)) new
      | None => []
      end /\
    (quiet (script w) ->
     forall x,
       In x msgs ->
       message x <> None ->
       fromMe (key x) = false ->
       exists m,
         In m new /\
         Storage.chatId m = Js.or_else (remoteJid (key x)) "" /\
         Storage.from m = Storage.chatId m /\
         Storage.isFromMe m = false).
Proof.
  revert w. induction msgs as [|x xs IH]; intros w.
  - exists []. simpl. rewrite app_nil_r.
    split; [reflexivity|]. split; [constructor|]. split.
    + destruct (io (this w)); simpl; rewrite app_nil_r; reflexivity.
    + intros _ x [].
  - cbv zeta. rewrite exec_handleIncomingMessages_cons.
    destruct (ingest_item_shape x w) as (n1 & Hm1 & Hf1 & He1 & Hq1).
    destruct (IH (exec (ingest x) w)) as (n2 & Hm2 & Hf2 & He2 & Hq2).
    assert (Ht : this (exec (ingest x) w) = this w)
      by (apply (ingest_keeps_this (this w) x w); reflexivity).
    rewrite Ht in He2.
    exists (n1 ++ n2).
    rewrite Hm2, Hm1, He2, He1, <- !app_assoc.
    split; [reflexivity|]. split; [|split].
    + apply Forall_app_2.
      * apply (Forall_impl _ _ _ Hf1). intros m Hm.
        exists x. split; [left; reflexivity | exact Hm].
      * apply (Forall_impl _ _ _ Hf2). intros m (y & Hy & Hm).
        exists y. split; [right; exact Hy | exact Hm].
    + unfold message_event.
      destruct (io (this w)); [rewrite map_app|]; reflexivity.
    + intros Hq y [<-|Hy] Hne Hf.
      * destruct (Hq1 Hq Hne Hf) as (m & Hin & _ & _ & Hm).
        exists m. split; [apply in_or_app; left; exact Hin | exact Hm].
      * destruct (Hq2 (ingest_keeps_quiet x w Hq) y Hy Hne Hf)
          as (m & Hin & Hm).
        exists m. split; [apply in_or_app; right; exact Hin | exact Hm].
Qed.

Lemma inbound_messages_shape_witness :
  let w' :=
    exec (handleIncomingMessages [item1; own_message; item3]) world_open in
  exists new,
    Storage.messages (db w') = Storage.messages (db world_open) ++ new /\
    Forall (fun m =>
              exists x,
                In x [item1; own_message; item3] /\
                message x <> None /\
                fromMe (key x) = false /\
                Storage.chatId m = Js.or_else (remoteJid (key x)) "" /\
                Storage.from m = Storage.chatId m /\
                Storage.isFromMe m = false) new /\
    emitted w' =
      emitted world_open ++
      map (fun m => EvMessage (Storage.chatId m) (Storage.from m)
                      (Storage.body m)) new /\
    exists m,
      In m new /\
      Storage.chatId m = "333@g.us" /\
      Storage.from m = Storage.chatId m /\
      Storage.isFromMe m = false.
Proof.
  destruct (inbound_messages_shape [item1; own_message; item3] world_open)
    as (new & H1 & H2 & H3 & H4).
  exists new. split; [exact H1|]. split; [exact H2|]. split; [exact H3|].
  assert (Hq : quiet (script world_open)) by constructor.
  apply (H4 Hq item3);
    [right; right; left; reflexivity | discriminate | reflexivity].
Defined.

(** * Further properties of the service *)

(** ** Strings *)

Lemma includes_app_r (needle a b : string) :
  Js.includes needle b = true -> Js.includes needle (a ++ b) = true.
Proof.
  intros H. induction a as [|c a IH]; simpl.
  - exact H.
  - rewrite IH. apply orb_true_r.
Qed.

Lemma includes_cons_false (needle : string) (c : Ascii.ascii) (s : string) :
  Js.includes needle (String c s) = false ->
  String.prefix needle (String c s) = false /\ Js.includes needle s = false.
Proof. simpl. intros H. apply orb_false_elim in H. exact H. Qed.

(** Without the first character of the needle at its head, a string does
    not start with the needle. *)
Lemma prefix_head (c : Ascii.ascii) (needle : string) (a : Ascii.ascii) (s t : string) :
  String.prefix (String c EmptyString) (String a s) = false ->
  String.prefix (String c needle) (String a t) = false.
Proof.
  simpl. destruct (Ascii.ascii_dec c a); [|reflexivity].
  destruct s; discriminate.
Qed.

(** [s.split(c)[0]] does not contain the character [c]. *)
Lemma split_head_free (c : Ascii.ascii) (s : string) :
  Js.includes (String c EmptyString) (Js.split_head (String c EmptyString) s)
  = false.
Proof.
  induction s as [|a s IH].
  - reflexivity.
  - cbn [Js.split_head].
    destruct (String.prefix (String c EmptyString) (String a s)) eqn:E.
    + reflexivity.
    + cbn [Js.includes]. rewrite IH.
      rewrite (prefix_head c EmptyString a s _ E). reflexivity.
Qed.

(** A string without the separator is its own head. *)
Lemma split_head_none (c : Ascii.ascii) (s : string) :
  Js.includes (String c EmptyString) s = false ->
  Js.split_head (String c EmptyString) s = s.
Proof.
  induction s as [|a s IH]; intros H.
  - reflexivity.
  - destruct (includes_cons_false _ _ _ H) as [Hp Hi].
    cbn [Js.split_head]. rewrite Hp, (IH Hi). reflexivity.
Qed.

(** The head of [a ++ c :: b] is [a] when [a] is free of [c]. *)
Lemma split_head_app (c : Ascii.ascii) (a b : string) :
  Js.includes (String c EmptyString) a = false ->
  Js.split_head (String c EmptyString) (a ++ String c b) = a.
Proof.
  induction a as [|x a IH]; intros H.
  - simpl. destruct (Ascii.ascii_dec c c); [|contradiction].
    destruct b; reflexivity.
  - destruct (includes_cons_false _ _ _ H) as [Hp Hi].
    change (String x a ++ String c b)%string with (String x (a ++ String c b)).
    cbn [Js.split_head].
    rewrite (prefix_head c EmptyString x a _ Hp), (IH Hi). reflexivity.
Qed.

(** A suffix that starts with [c] but not with the needle [c :: n] does not
    bring the needle into a string free of [c]. *)
Lemma includes_app_free (c : Ascii.ascii) (n a b : string) :
  Js.includes (String c EmptyString) a = false ->
  Js.includes (String c n) b = false ->
  Js.includes (String c n) (a ++ b) = false.
Proof.
  intros Ha Hb. induction a as [|x a IH].
  - exact Hb.
  - destruct (includes_cons_false _ _ _ Ha) as [Hp Hi].
    change (String x a ++ b)%string with (String x (a ++ b)).
    cbn [Js.includes].
    rewrite (prefix_head c n x a _ Hp), (IH Hi). reflexivity.
Qed.

(** ** Chat identifiers *)

(** X1.  The chat identifier [sendMessage] computes always contains "@",
    and computing it again from its own result changes nothing. *)
Theorem normalizeChatId_idempotent (to : string) :
  Js.includes "@" (normalizeChatId to) = true /\
  normalizeChatId (normalizeChatId to) = normalizeChatId to.
Proof.
  assert (H : Js.includes "@" (normalizeChatId to) = true).
  { unfold normalizeChatId. destruct (Js.includes "@" to) eqn:E; simpl.
    - exact E.
    - apply includes_app_r. reflexivity. }
  split; [exact H|].
  unfold normalizeChatId at 1. rewrite H. reflexivity.
Qed.

(** X2.  For a destination without "@", the Contact that [sendMessage]
    creates is not a group, and its [number] is what the inbound rule
    ([id.split("@")[0]]) reads back from its [id]. *)
Theorem outboundContact_of_number (to : string) :
  Js.includes "@" to = false ->
  Storage.id (outboundContact to) = (to ++ "@s.whatsapp.net")%string /\
  Storage.isGroup (outboundContact to) = false /\
  Js.split_head "@" (Storage.id (outboundContact to))
    = Storage.number (outboundContact to).
Proof.
  intros H. unfold outboundContact, normalizeChatId. simpl. rewrite H. simpl.
  split; [reflexivity|]. split.
  - apply includes_app_free; [exact H | reflexivity].
  - apply split_head_app. exact H.
Qed.

Lemma outboundContact_of_number_witness :
  Storage.id (outboundContact "1234567890") = "1234567890@s.whatsapp.net" /\
  Storage.isGroup (outboundContact "1234567890") = false /\
  Js.split_head "@" (Storage.id (outboundContact "1234567890"))
    = Storage.number (outboundContact "1234567890").
Proof. apply (outboundContact_of_number "1234567890"). reflexivity. Defined.

(** ** Connection establishment *)

(** X3.  [initialize()] is idempotent from its first call on: whatever the
    first call did (it may have failed), a second call returns normally and
    only adds the line "WhatsApp service already initialized" to the
    console. *)
Theorem initialize_twice (i j : SocketIOServer) (w : World) :
  let w1 := exec (initialize i) w in
  initialize j w1 =
  (Ok tt,
   with_console
     (fun l => l ++ [ConsoleLog "WhatsApp service already initialized"]) w1).
Proof.
  intros w1. apply initialize_when_initialized, initialize_sets_flag.
Qed.

(** X4.  When [connectToWhatsApp] returns, [getClient()] gives a new
    handle, the three listeners are registered on that handle, in the order
    creds.update, connection.update, messages.upsert, and neither the store
    nor the timers nor the other fields of the service have changed. *)
Theorem connect_success (w : World) :
  result connectToWhatsApp w = Ok tt ->
  let w' := exec connectToWhatsApp w in
  result getClient w' = Ok (Some {| sockId := nextSock w; user := me w |}) /\
  nextSock w' = S (nextSock w) /\
  trace w' = trace w ++ connect_calls (nextSock w) /\
  db w' = db w /\ timers w' = timers w /\ emitted w' = emitted w /\
  io (this w') = io (this w) /\
  isInitialized (this w') = isInitialized (this w) /\
  qrCode (this w') = qrCode (this w).
Proof.
  destruct w as [[s i ini q] d em co ti tr sc nw m ch nx].
  destruct sc as [|[|e1] [|[|e2] [|[|e3] s3]]];
    unfold connectToWhatsApp, getClient, connect_calls; primitives; simpl;
    intros H; try discriminate; rewrite <- ?app_assoc; simpl;
    repeat split.
Qed.

Lemma connect_success_witness :
  let w' := exec connectToWhatsApp world_open in
  result getClient w'
    = Ok (Some {| sockId := 1; user := Some "4915112345:7@s.whatsapp.net" |}) /\
  nextSock w' = 2 /\
  trace w' = trace world_open ++ connect_calls 1 /\
  db w' = db world_open /\ timers w' = timers world_open /\
  emitted w' = emitted world_open /\
  io (this w') = io (this world_open) /\
  isInitialized (this w') = isInitialized (this world_open) /\
  qrCode (this w') = qrCode (this world_open).
Proof. apply (connect_success world_open). reflexivity. Defined.

Lemma connect_failure_keeps_this (w : World) (e : Exn) :
  result connectToWhatsApp w = Thrown e ->
  this (exec connectToWhatsApp w) = this w.
Proof.
  destruct w as [[s i ini q] d em co ti tr sc nw m ch nx].
  destruct sc as [|[|e1] [|[|e2] [|[|e3] s3]]];
    unfold connectToWhatsApp; primitives; simpl;
    intros H; try discriminate; reflexivity.
Qed.

(** X5.  When [connectToWhatsApp] throws, the service keeps the socket it
    had ([getClient()] answers as before), no listener has been registered,
    and the store, the timers and the emitted events are unchanged. *)
Theorem connect_failure (w : World) (e : Exn) :
  result connectToWhatsApp w = Thrown e ->
  let w' := exec connectToWhatsApp w in
  this w' = this w /\
  result getClient w' = result getClient w /\
  db w' = db w /\ timers w' = timers w /\ emitted w' = emitted w /\
  exists calls,
    trace w' = trace w ++ calls /\ Forall (fun c => ~ listener_call c) calls.
Proof.
  destruct w as [[s i ini q] d em co ti tr sc nw m ch nx].
  destruct sc as [|[|e1] [|[|e2] [|[|e3] s3]]];
    unfold connectToWhatsApp, getClient; primitives; simpl;
    intros H; try discriminate; rewrite <- ?app_assoc; simpl;
    repeat split; eexists; (split; [reflexivity|]);
    repeat constructor; simpl; auto.
Qed.

Lemma connect_failure_witness :
  let w' := exec connectToWhatsApp world_connect_refused in
  this w' = this world_connect_refused /\
  result getClient w' = result getClient world_connect_refused /\
  db w' = db world_connect_refused /\
  timers w' = timers world_connect_refused /\
  emitted w' = emitted world_connect_refused /\
  exists calls,
    trace w' = trace world_connect_refused ++ calls /\
    Forall (fun c => ~ listener_call c) calls.
Proof.
  apply (connect_failure world_connect_refused (Error "ECONNREFUSED")).
  reflexivity.
Defined.

(** X6.  A timer that fires schedules nothing: the pending timers lose
    their head and gain no element, and the store is not touched.  When the
    reconnect attempt fails, its rejection is handled by nobody (it is the
    outcome of the callback), the fields of the service are as before and no
    timer has been added: a failed reconnect is not retried. *)
Theorem fire_schedules_nothing (w : World) :
  timers (exec fire w) = tail (timers w) /\
  db (exec fire w) = db w /\
  (forall t rest e,
     timers w = t :: rest ->
     result connectToWhatsApp (with_timers (fun _ => rest) w) = Thrown e ->
     result fire w = Thrown e /\
     this (exec fire w) = this w /\
     timers (exec fire w) = rest).
Proof.
  assert (Hk : forall w0 : World,
            preserves (fun w' => timers w' = timers w0 /\ db w' = db w0)
              connectToWhatsApp)
    by (intros w0; unfold connectToWhatsApp; preserve).
  destruct (timers w) as [|[[] d] rest] eqn:Ht.
  - unfold fire, exec, bind, gets. rewrite Ht. simpl.
    split; [exact Ht|]. split; [reflexivity|].
    intros t rest e H. discriminate H.
  - pose proof (fire_runs_callback w _ _ Ht) as Hf.
    destruct (Hk (with_timers (fun _ => rest) w)
                 (with_timers (fun _ => rest) w)) as [H1 H2];
      [split; reflexivity|].
    rewrite Hf.
    split; [exact H1|]. split; [exact H2|].
    intros t rest' e H He. injection H as <- <-.
    split; [|split; [apply (connect_failure_keeps_this _ e He) | exact H1]].
    unfold fire, result, bind, gets, modify. rewrite Ht. simpl.
    exact He.
Qed.

Lemma fire_schedules_nothing_witness :
  result fire world_reconnect_refused = Thrown (Error "ECONNREFUSED") /\
  this (exec fire world_reconnect_refused) = this world_reconnect_refused /\
  timers (exec fire world_reconnect_refused) = [].
Proof.
  destruct (fire_schedules_nothing world_reconnect_refused) as (_ & _ & H).
  apply (H {| callback := Reconnect; delay := 3000 |} []
           (Error "ECONNREFUSED")); reflexivity.
Defined.

(** ** Connection updates *)

(** X7.  An update that carries no QR code, or an empty one, and whose
    connection is neither "close" nor "open" changes nothing at all: no
    write, no event, no log. *)
Theorem idle_update_changes_nothing (u : ConnectionUpdate) (w : World) :
  Js.or_null (qr u) = None ->
  connection u <> Some conn_close ->
  connection u <> Some conn_open ->
  handleConnectionUpdate u w = (Ok tt, w).
Proof.
  intros Hq Hc Ho. unfold handleConnectionUpdate. rewrite Hq.
  destruct (connection u) as [[]|]; try contradiction; reflexivity.
Qed.

Lemma idle_update_changes_nothing_witness :
  handleConnectionUpdate connecting_empty_qr world_open = (Ok tt, world_open).
Proof.
  apply (idle_update_changes_nothing connecting_empty_qr world_open);
    [reflexivity | discriminate | discriminate].
Defined.

(** X8.  A QR challenge (a non-empty [qr], no "close" or "open" in the same
    update) sets the service's [qrCode] at once.  When the handler
    completes, the Session is not connected and holds the same code, and
    one "qr" event with that code has been emitted after the write; when the
    write fails, the handler throws, the store is untouched and nothing is
    emitted, although the service's own [qrCode] is already set. *)
Theorem qr_challenge (u : ConnectionUpdate) (q : string) (w : World) :
  qr u = Some q ->
  Js.truthy q = true ->
  connection u <> Some conn_close ->
  connection u <> Some conn_open ->
  let w' := exec (handleConnectionUpdate u) w in
  qrCode (this w') = Some q /\
  (result (handleConnectionUpdate u) w = Ok tt ->
   (exists r,
      Storage.session (db w') = Some r /\
      Storage.isConnected r = false /\ Storage.qrCode r = Some q) /\
   trace w' = trace w ++ [UpdateSession (qrUpdate q)] /\
   emitted w' =
     emitted w ++ match io (this w) with Some _ => [EvQr q] | None => [] end) /\
  (forall e,
     result (handleConnectionUpdate u) w = Thrown e ->
     db w' = db w /\ emitted w' = emitted w).
Proof.
  intros Hq Ht Hc Ho.
  assert (Hn : Js.or_null (qr u) = Some q)
    by (rewrite Hq; unfold Js.or_null; rewrite Ht; reflexivity).
  destruct w as [[s i ini c] d em co ti tr sc nw m ch nx].
  unfold handleConnectionUpdate. rewrite Hn.
  destruct (connection u) as [[]|]; try contradiction;
    destruct sc as [|[|e1] rest], i; primitives; simpl;
    repeat split; intros; try discriminate; rewrite ?app_nil_r;
    try reflexivity; eexists; repeat split.
Qed.

Lemma qr_challenge_witness :
  let w' := exec (handleConnectionUpdate challenged) world_started in
  qrCode (this w') = Some "2@kq7TzbE0,pairing" /\
  (exists r,
     Storage.session (db w') = Some r /\
     Storage.isConnected r = false /\
     Storage.qrCode r = Some "2@kq7TzbE0,pairing") /\
  emitted w' = emitted world_started ++ [EvQr "2@kq7TzbE0,pairing"].
Proof.
  destruct (qr_challenge challenged "2@kq7TzbE0,pairing" world_started)
    as (H1 & H2 & _);
    [reflexivity | reflexivity | discriminate | discriminate |].
  split; [exact H1|].
  destruct (H2 eq_refl) as (H3 & _ & H4).
  split; [exact H3 | exact H4].
Defined.

Lemma result_ret {A} (a : A) (w : World) : result (ret a) w = Ok a.
Proof. reflexivity. Qed.

Lemma exec_ret {A} (a : A) (w : World) : exec (ret a) w = w.
Proof. reflexivity. Qed.

Lemma storage_updateSession_frame (u : Storage.SessionUpdate) (w : World) :
  emitted (exec (storage_updateSession u) w) = emitted w /\
  timers (exec (storage_updateSession u) w) = timers w.
Proof.
  assert (H : preserves
                (fun w' => emitted w' = emitted w /\ timers w' = timers w)
                (storage_updateSession u)) by preserve.
  apply H. split; reflexivity.
Qed.

Lemma io_emit_run (ev : Event) (w : World) :
  emitted (exec (io_emit ev) w) =
    emitted w ++ match io (this w) with Some _ => [ev] | None => [] end /\
  timers (exec (io_emit ev) w) = timers w.
Proof.
  unfold exec, io_emit. destruct (io (this w)); simpl;
    rewrite ?app_nil_r; split; reflexivity.
Qed.

Lemma loadContacts_keeps_events (w : World) :
  emitted (exec loadContacts w) = emitted w /\
  timers (exec loadContacts w) = timers w.
Proof.
  assert (H : preserves
                (fun w' => emitted w' = emitted w /\ timers w' = timers w)
                loadContacts) by (unfold loadContacts; preserve).
  apply H. split; reflexivity.
Qed.

(** The phone number read from an account identity is not empty and has no
    ":" in it. *)
Lemma phone_of_identity (s : option WASocket) (p : string) :
  Js.or_null (option_map (Js.split_head ":") (sockUser s)) = Some p ->
  p <> "" /\ Js.includes ":" p = false.
Proof.
  destruct (sockUser s) as [x|]; simpl; [|discriminate].
  destruct (Js.truthy (Js.split_head ":" x)) eqn:E; [|discriminate].
  intros H. injection H as <-. split.
  - intros H0. rewrite H0 in E. discriminate.
  - apply split_head_free.
Qed.

(** X9.  When the handler of an "open" update completes, the Session is
    connected, its [lastConnected] is the time of the event and its
    [phoneNumber] is the part of the socket's account identity before the
    first ":" (null without an identity); a stored phone number is never
    empty and never contains ":".  One "ready" event is emitted, the contact
    sync that follows emits nothing, and no timer is scheduled. *)
Theorem open_transition (u : ConnectionUpdate) (w : World) :
  connection u = Some conn_open ->
  Js.or_null (qr u) = None ->
  result (handleConnectionUpdate u) w = Ok tt ->
  let w' := exec (handleConnectionUpdate u) w in
  (exists r,
     Storage.session (db w') = Some r /\
     Storage.isConnected r = true /\
     Storage.lastConnected r = Some (now w) /\
     Storage.phoneNumber r =
       Js.or_null (option_map (Js.split_head ":") (sockUser (sock (this w)))) /\
     forall p, Storage.phoneNumber r = Some p ->
               p <> "" /\ Js.includes ":" p = false) /\
  emitted w' =
    emitted w ++ match io (this w) with Some _ => [EvReady] | None => [] end /\
  timers w' = timers w /\
  sock (this w') = sock (this w).
Proof.
  intros Hc Hq. unfold handleConnectionUpdate. rewrite Hc, Hq.
  unfold console_log.
  rewrite result_bind, exec_bind, result_ret, exec_ret.
  rewrite result_bind, exec_bind, result_modify, exec_modify.
  rewrite result_bind, exec_bind, result_modify, exec_modify.
  rewrite result_bind, exec_bind, result_gets, exec_gets.
  rewrite result_bind, exec_bind, result_gets, exec_gets.
  rewrite result_bind, exec_bind.
  match goal with
  | |- context [result (storage_updateSession ?U) ?W] =>
      destruct (storage_updateSession_run U W) as [Ht [[Hr Hd]|[e Hr]]];
      destruct (storage_updateSession_frame U W) as [He Hti];
      rewrite Hr; [|discriminate]
  end.
  intros _. rewrite exec_bind.
  match goal with
  | |- context [result (io_emit ?E) ?W] =>
      destruct (io_emit_frame E W) as (Hr' & Hd' & Ht');
      destruct (io_emit_run E W) as (He' & Hti'); rewrite Hr'
  end.
  match goal with
  | |- context [exec loadContacts ?W] =>
      destruct (loadContacts_frame W) as [Hs'' Ht''];
      destruct (loadContacts_keeps_events W) as [He'' Hti''];
      rewrite Hs'', Ht'', He'', Hti''
  end.
  rewrite Hd', Ht', Hd, Ht, He', Hti', He, Hti, Ht. simpl.
  split; [|repeat split].
  eexists. split; [reflexivity|]. simpl.
  split; [reflexivity|]. split; [reflexivity|]. split; [reflexivity|].
  apply phone_of_identity.
Qed.

Lemma open_transition_witness :
  let w' := exec (handleConnectionUpdate opened) world_started in
  (exists r,
     Storage.session (db w') = Some r /\
     Storage.isConnected r = true /\
     Storage.lastConnected r = Some 1700000000000%Z /\
     Storage.phoneNumber r = Some "4915112345") /\
  emitted w' = emitted world_started ++ [EvReady] /\
  timers w' = timers world_started.
Proof.
  destruct (open_transition opened world_started)
    as ((r & H1 & H2 & H3 & H4 & _) & H5 & H6 & _);
    [reflexivity | reflexivity | reflexivity |].
  split; [|split; [exact H5 | exact H6]].
  exists r. split; [exact H1|]. split; [exact H2|]. split; [exact H3|].
  exact H4.
Defined.

(** The second guard of [sendMessage]. *)
Lemma send_rejected (w : World) (to content : string) :
  sessionConnected (Storage.session (db w)) = false ->
  exists e, sendMessage to content w = (Thrown e, w) /\ NotConnected e.
Proof.
  intros H. unfold sendMessage, NotConnected. primitives.
  destruct (sock (this w)); simpl; [rewrite H; simpl|]; eauto.
Qed.

(** X10.  When the handler of a "close" update completes, the Session is
    disconnected with [phoneNumber] and [qrCode] null, one "disconnected"
    event with reason "Connection closed" has been emitted, and the fields
    of the service are as before: the closed socket handle stays in place.
    From then on every [sendMessage] is rejected by a guard, without a call
    to the transport and without a write. *)
Theorem close_transition (u : ConnectionUpdate) (w : World) :
  connection u = Some conn_close ->
  Js.or_null (qr u) = None ->
  result (handleConnectionUpdate u) w = Ok tt ->
  let w' := exec (handleConnectionUpdate u) w in
  (exists r,
     Storage.session (db w') = Some r /\
     Storage.isConnected r = false /\
     Storage.phoneNumber r = None /\ Storage.qrCode r = None) /\
  this w' = this w /\
  emitted w' =
    emitted w ++
    match io (this w) with
    | Some _ => [EvDisconnected "Connection closed"]
    | None => []
    end /\
  forall to content,
    exists e, sendMessage to content w' = (Thrown e, w') /\ NotConnected e.
Proof.
  intros Hc Hq.
  destruct w as [[s i ini c] d em co ti tr sc nw m ch nx].
  unfold handleConnectionUpdate. rewrite Hc, Hq.
  destruct sc as [|[|e1] rest], i, (shouldReconnect u);
    primitives; simpl; intros H; try discriminate; rewrite ?app_nil_r;
    (split; [eexists; repeat split|]);
    (split; [reflexivity|]); (split; [reflexivity|]);
    intros to content; apply send_rejected; reflexivity.
Qed.

Lemma close_transition_witness :
  let w' := exec (handleConnectionUpdate closed_by_peer) world_open in
  (exists r,
     Storage.session (db w') = Some r /\
     Storage.isConnected r = false /\
     Storage.phoneNumber r = None /\ Storage.qrCode r = None) /\
  this w' = this world_open /\
  emitted w' = emitted world_open ++ [EvDisconnected "Connection closed"] /\
  exists e,
    sendMessage "1234567890" "hi" w' = (Thrown e, w') /\ NotConnected e.
Proof.
  destruct (close_transition closed_by_peer world_open)
    as (H1 & H2 & H3 & H4); [reflexivity | reflexivity | reflexivity |].
  split; [exact H1|]. split; [exact H2|]. split; [exact H3|].
  apply H4.
Defined.

(** ** Inbound pipeline, continued *)

(** X11.  A batch made only of items without content or of our own
    messages leaves the world exactly as it was: nothing is written, emitted
    or logged, and no outcome of the script is consumed.  The empty batch is
    the first case. *)
Theorem skipped_batch_changes_nothing (msgs : list WAMessage) (w : World) :
  Forall skipped msgs -> handleIncomingMessages msgs w = (Ok tt, w).
Proof.
  induction 1 as [|x xs Hx _ IH].
  - reflexivity.
  - rewrite handleIncomingMessages_cons. unfold exec.
    rewrite (ingest_skips x w Hx). exact IH.
Qed.

Lemma skipped_batch_changes_nothing_witness :
  handleIncomingMessages [own_message; receipt] world_item2_fails
  = (Ok tt, world_item2_fails).
Proof.
  apply (skipped_batch_changes_nothing [own_message; receipt]
           world_item2_fails).
  constructor; [right; reflexivity|].
  constructor; [left; reflexivity|]. constructor.
Defined.

Lemma ingest_quiet_emits (x : WAMessage) (c : MessageContent) (w : World) :
  quiet (script w) ->
  message x = Some c ->
  fromMe (key x) = false ->
  emitted (exec (ingest x) w) =
    emitted w ++
    match io (this w) with
    | Some _ => [message_event (inboundMessage (sock (this w)) x c)]
    | None => []
    end.
Proof.
  destruct w as [[s i ini q] d em co ti tr sc nw m ch nx]. simpl.
  intros Hq Hm Hf. unfold ingest. rewrite Hm, Hf.
  destruct sc as [|o1 [|o2 s2]].
  - destruct i; primitives; simpl; rewrite ?app_nil_r; reflexivity.
  - inversion Hq as [|? ? <- Hq']; subst.
    destruct i; primitives; simpl; rewrite ?app_nil_r; reflexivity.
  - inversion Hq as [|? ? <- Hq']; subst.
    inversion Hq' as [|? ? <- Hq'']; subst.
    destruct i; primitives; simpl; rewrite ?app_nil_r; reflexivity.
Qed.

(** What one item adds when no failure is ahead. *)
Lemma ingest_quiet_step (x : WAMessage) (w : World) :
  quiet (script w) ->
  let new := option_list (inboundRecord (sock (this w)) x) in
  Storage.messages (db (exec (ingest x) w)) = Storage.messages (db w) ++ new /\
  emitted (exec (ingest x) w) =
    emitted w ++
    match io (this w) with
    | Some _ => map message_event new
    | None => []
    end.
Proof.
  intros Hq. unfold inboundRecord.
  assert (Hskip : skipped x ->
    Storage.messages (db (exec (ingest x) w)) = Storage.messages (db w) ++ [] /\
    emitted (exec (ingest x) w) =
      emitted w ++ match io (this w) with Some _ => [] | None => [] end).
  { intros Hs. unfold exec. rewrite (ingest_skips x w Hs). simpl.
    destruct (io (this w)); rewrite !app_nil_r; split; reflexivity. }
  destruct (message x) as [c|] eqn:Em; [destruct (fromMe (key x)) eqn:Ef|].
  - apply Hskip. right. exact Ef.
  - destruct (ingest_records x c w Hq Em Ef) as (_ & Hr & _).
    rewrite Hr, (ingest_quiet_emits x c w Hq Em Ef). simpl.
    destruct (io (this w)); split; reflexivity.
  - apply Hskip. left. exact Em.
Qed.

(** X12.  With no failure ahead, [handleIncomingMessages] appends exactly
    the Messages of the items it does not skip, in the order of the batch
    and with one Message per item, and emits their "message" events in the
    same order. *)
Theorem quiet_batch (msgs : list WAMessage) (w : World) :
  quiet (script w) ->
  let w' := exec (handleIncomingMessages msgs) w in
  let new := omap (inboundRecord (sock (this w))) msgs in
  Storage.messages (db w') = Storage.messages (db w) ++ new /\
  emitted w' =
    emitted w ++
    match io (this w) with
    | Some _ => map message_event new
    | None => []
    end /\
  quiet (script w').
Proof.
  revert w. induction msgs as [|x xs IH]; intros w Hq.
  - simpl. rewrite !app_nil_r.
    split; [reflexivity|]. split; [|exact Hq].
    destruct (io (this w)); simpl; rewrite app_nil_r; reflexivity.
  - cbv zeta. rewrite exec_handleIncomingMessages_cons.
    assert (Ht : this (exec (ingest x) w) = this w)
      by (apply (ingest_keeps_this (this w) x w); reflexivity).
    destruct (IH (exec (ingest x) w) (ingest_keeps_quiet x w Hq))
      as (Hm & He & Hq').
    rewrite Ht in Hm, He. cbv zeta in Hm, He.
    destruct (ingest_quiet_step x w Hq) as (Hm1 & He1).
    cbv zeta in Hm1, He1.
    rewrite Hm, He, Hm1, He1, <- !app_assoc.
    assert (Ho : omap (inboundRecord (sock (this w))) (x :: xs) =
                 option_list (inboundRecord (sock (this w)) x) ++
                 omap (inboundRecord (sock (this w))) xs).
    { simpl. destruct (inboundRecord (sock (this w)) x); reflexivity. }
    rewrite Ho.
    split; [reflexivity|]. split; [|exact Hq'].
    destruct (io (this w)); [rewrite map_app|]; reflexivity.
Qed.

Lemma quiet_batch_witness :
  let w' :=
    exec (handleIncomingMessages [item1; own_message; item3]) world_open in
  map Storage.body (Storage.messages (db w')) = ["one"; "three"] /\
  emitted w' =
    emitted world_open ++
    [EvMessage "111@s.whatsapp.net" "111@s.whatsapp.net" "one";
     EvMessage "333@g.us" "333@g.us" "three"].
Proof.
  destruct (quiet_batch [item1; own_message; item3] world_open)
    as (H1 & H2 & _); [constructor|].
  cbv zeta in H1, H2. split.
  - rewrite H1. reflexivity.
  - rewrite H2. reflexivity.
Defined.

(** X13.  Ingestion stays within its remit: whatever the batch and
    whatever fails, [handleIncomingMessages] leaves the fields of the
    service, the Session record and the pending timers as they were, and the
    only collaborator calls it makes are Contact and Message writes. *)
Theorem ingestion_frame (msgs : list WAMessage) (w : World) :
  let w' := exec (handleIncomingMessages msgs) w in
  this w' = this w /\
  Storage.session (db w') = Storage.session (db w) /\
  timers w' = timers w /\
  exists calls, trace w' = trace w ++ calls /\ Forall record_write calls.
Proof.
  intros w'. subst w'. split; [|split; [|split]].
  - apply (handleIncomingMessages_keeps_this (this w) msgs w). reflexivity.
  - assert (H : preserves
                  (fun w' => Storage.session (db w') = Storage.session (db w))
                  (handleIncomingMessages msgs)).
    { apply preserves_for_of. intros x. unfold ingest. preserve. }
    apply H. reflexivity.
  - assert (H : preserves (fun w' => timers w' = timers w)
                  (handleIncomingMessages msgs)).
    { apply preserves_for_of. intros x. unfold ingest. preserve. }
    apply H. reflexivity.
  - assert (H : preserves
                  (fun w' => exists calls,
                     trace w' = trace w ++ calls /\ Forall record_write calls)
                  (handleIncomingMessages msgs)).
    { apply preserves_for_of. intros x. unfold ingest.
      preserve;
        match goal with
        | H : exists _, _ |- _ => destruct H as (calls & E & F)
        end;
        simpl in *;
        match goal with
        | |- exists _, _ ++ [?c] = _ /\ _ => exists (calls ++ [c])
        end;
        rewrite E, app_assoc;
        (split; [reflexivity|]);
        (apply Forall_app_2; [exact F | repeat constructor]). }
    apply H. exists []. rewrite app_nil_r. split; [reflexivity|constructor].
Qed.

(** ** Contact sync *)

Lemma loadContact_total (c : string * option string) : total (loadContact c).
Proof.
  unfold loadContact. apply total_try_catch. intros e. apply total_modify.
Qed.

Lemma loadContacts_total : total loadContacts.
Proof.
  unfold loadContacts. apply total_try_catch. intros e. apply total_modify.
Qed.

Lemma attempt_ok (c : Call) (w : World) :
  next_succeeds w ->
  result (attempt c) w = Ok tt /\
  trace (exec (attempt c) w) = trace w ++ [c] /\
  script (exec (attempt c) w) = tail (script w) /\
  chats (exec (attempt c) w) = chats w /\
  console (exec (attempt c) w) = console w /\
  this (exec (attempt c) w) = this w /\
  db (exec (attempt c) w) = db w.
Proof.
  unfold result, exec, attempt.
  intros [H|[rest H]]; rewrite H; simpl; repeat split; exact H.
Qed.

(** The sync makes one write attempt per chat, in order, whatever fails. *)
Lemma sync_loop (cs : list (string * option string)) (w : World) :
  result (for_of cs loadContact) w = Ok tt /\
  trace (exec (for_of cs loadContact) w) = trace w ++ map contact_write cs /\
  this (exec (for_of cs loadContact) w) = this w.
Proof.
  split; [apply total_unit, total_for_of, loadContact_total|].
  revert w. induction cs as [|c cs IH]; intros w.
  - simpl. rewrite app_nil_r. split; reflexivity.
  - cbn [for_of map]. rewrite exec_bind.
    rewrite (total_unit _ (loadContact_total c)).
    destruct (IH (exec (loadContact c) w)) as [Ht Hs].
    rewrite Ht, Hs.
    assert (H1 : trace (exec (loadContact c) w) = trace w ++ [contact_write c]
                 /\ this (exec (loadContact c) w) = this w).
    { destruct w as [t d em co ti tr sc nw m ch nx].
      destruct sc as [|[|e] rest]; unfold loadContact; primitives; simpl;
        split; reflexivity. }
    destruct H1 as [H1 H2]. rewrite H1, H2, <- app_assoc.
    split; reflexivity.
Qed.

(** When the fetch succeeds, [loadContacts] is the loop over the chats
    followed by the summary line. *)
Lemma loadContacts_run (w : World) (sk : WASocket) :
  sock (this w) = Some sk ->
  next_succeeds w ->
  loadContacts w =
  (Ok tt,
   with_console (fun l => l ++ [ConsoleLogLoaded (length (chats w))])
     (exec (for_of (chats w) loadContact)
        (exec (attempt (GroupFetchAllParticipating (sockId sk))) w))).
Proof.
  intros Hs Hn.
  destruct (attempt_ok (GroupFetchAllParticipating (sockId sk)) w Hn)
    as (Ha & _ & _ & Hc & _).
  unfold loadContacts. rewrite run_try_catch.
  assert (Hr : forall A (m : M A), m w = (result m w, exec m w))
    by (intros A m; unfold result, exec; destruct (m w); reflexivity).
  set (body := _ <- gets (fun w0 => sock (this w0)) ;; _).
  assert (Hb : body w =
    (Ok tt,
     with_console (fun l => l ++ [ConsoleLogLoaded (length (chats w))])
       (exec (for_of (chats w) loadContact)
          (exec (attempt (GroupFetchAllParticipating (sockId sk))) w)))).
  { subst body. rewrite run_bind, result_gets, exec_gets, Hs.
    unfold sock_groupFetchAllParticipating.
    rewrite run_bind, result_bind, exec_bind, Ha, result_gets, exec_gets, Hc.
    rewrite run_bind.
    destruct (sync_loop (chats w)
                (exec (attempt (GroupFetchAllParticipating (sockId sk))) w))
      as (Hl & _).
    rewrite Hl. reflexivity. }
  unfold result, exec. rewrite Hb. reflexivity.
Qed.

(** X14.  [loadContacts] never throws and never touches the Session, the
    Messages, the fields of the service, the events or the timers.  Without
    a socket it does nothing at all; when the fetch of the participating
    chats fails, it logs "Error loading contacts:" with the failure and
    leaves the store as it was. *)
Theorem loadContacts_absorbs_failures (w : World) :
  let w' := exec loadContacts w in
  result loadContacts w = Ok tt /\
  Storage.session (db w') = Storage.session (db w) /\
  Storage.messages (db w') = Storage.messages (db w) /\
  this w' = this w /\ emitted w' = emitted w /\ timers w' = timers w /\
  (sock (this w) = None -> loadContacts w = (Ok tt, w)) /\
  (forall sk e rest,
     sock (this w) = Some sk ->
     script w = Fails e :: rest ->
     db w' = db w /\
     trace w' = trace w ++ [GroupFetchAllParticipating (sockId sk)] /\
     console w' = console w ++ [ConsoleError "Error loading contacts:" e]).
Proof.
  intros w'. subst w'.
  destruct (loadContacts_frame w) as [Hs Ht].
  destruct (loadContacts_keeps_events w) as [He Hti].
  split; [apply total_unit, loadContacts_total|].
  split; [exact Hs|]. split.
  { assert (H : preserves
                  (fun w' => Storage.messages (db w') = Storage.messages (db w))
                  loadContacts) by (unfold loadContacts; preserve).
    apply H. reflexivity. }
  split; [exact Ht|]. split; [exact He|]. split; [exact Hti|].
  split.
  - intros H0. unfold loadContacts. primitives. rewrite H0. reflexivity.
  - intros sk e rest H0 H1.
    destruct w as [[s i ini q] d em co ti tr sc nw m ch nx].
    simpl in H0, H1. subst s sc.
    unfold loadContacts. primitives. simpl. repeat split.
Qed.

Lemma loadContacts_absorbs_failures_witness :
  loadContacts fresh_world = (Ok tt, fresh_world) /\
  db (exec loadContacts world_logout_fails) = db world_logout_fails /\
  console (exec loadContacts world_logout_fails) =
    console world_logout_fails ++
    [ConsoleError "Error loading contacts:" (Error "Connection Closed")].
Proof.
  split.
  - apply (loadContacts_absorbs_failures fresh_world). reflexivity.
  - destruct (loadContacts_absorbs_failures world_logout_fails)
      as (_ & _ & _ & _ & _ & _ & _ & H).
    destruct (H {| sockId := 0; user := Some "4915112345:7@s.whatsapp.net" |}
                (Error "Connection Closed") [] eq_refl eq_refl)
      as (H1 & _ & H2).
    split; [exact H1 | exact H2].
Defined.

(** X15.  When the fetch succeeds, the sync attempts one Contact write per
    participating chat, in the order of the chats, also after a write has
    failed; and the summary line it logs last counts the chats, not the
    writes that succeeded. *)
Theorem sync_attempts_every_chat (w : World) (sk : WASocket) :
  sock (this w) = Some sk ->
  next_succeeds w ->
  let w' := exec loadContacts w in
  trace w' =
    trace w ++
    GroupFetchAllParticipating (sockId sk) :: map contact_write (chats w) /\
  last (console w') = Some (ConsoleLogLoaded (length (chats w))).
Proof.
  intros Hs Hn w'. subst w'. unfold exec.
  rewrite (loadContacts_run w sk Hs Hn). simpl.
  destruct (attempt_ok (GroupFetchAllParticipating (sockId sk)) w Hn)
    as (_ & Ht & _).
  destruct (sync_loop (chats w)
              (exec (attempt (GroupFetchAllParticipating (sockId sk))) w))
    as (_ & Hl & _).
  split.
  - rewrite Hl, Ht, <- app_assoc. reflexivity.
  - apply last_snoc.
Qed.

Lemma sync_attempts_every_chat_witness :
  let w' := exec loadContacts world_sync_write_fails in
  trace w' =
    [GroupFetchAllParticipating 0;
     contact_write ("120363@g.us", Some "Family");
     contact_write ("120364@g.us", None)] /\
  last (console w') = Some (ConsoleLogLoaded 2) /\
  Storage.getContact "120364@g.us" (db w')
    = Some (contactOfChat ("120364@g.us", None)).
Proof.
  destruct (sync_attempts_every_chat world_sync_write_fails
              {| sockId := 0; user := Some "4915112345:7@s.whatsapp.net" |})
    as (H1 & H2); [reflexivity | right; eexists; reflexivity |].
  split; [exact H1|]. split; [exact H2|]. reflexivity.
Defined.

Lemma loadContact_keeps_contact (k : string) (c : string * option string) :
  preserves (contact_at k) (loadContact c).
Proof.
  unfold loadContact. preserve.
  unfold contact_at in *. simpl in *.
  destruct (decide (fst c = k)) as [E|E].
  - exists (contactOfChat c). rewrite <- E.
    split; [apply lookup_insert_eq | reflexivity].
  - rewrite lookup_insert_ne by exact E. assumption.
Qed.

Lemma loadContact_quiet (c : string * option string) (w : World) :
  quiet (script w) ->
  quiet (script (exec (loadContact c) w)) /\
  Storage.contacts (db (exec (loadContact c) w)) =
    <[fst c := contactOfChat c]> (Storage.contacts (db w)).
Proof.
  destruct w as [t d em co ti tr sc nw m ch nx]. simpl. intros Hq.
  destruct sc as [|o rest].
  - unfold loadContact. primitives. simpl. split; [constructor|reflexivity].
  - inversion Hq as [|? ? <- Hq']; subst.
    unfold loadContact. primitives. simpl. split; [exact Hq'|reflexivity].
Qed.

Lemma sync_loop_quiet (cs : list (string * option string)) (w : World)
    (c : string * option string) :
  quiet (script w) ->
  In c cs ->
  contact_at (fst c) (exec (for_of cs loadContact) w).
Proof.
  revert w. induction cs as [|a cs IH]; intros w Hq Hin.
  - destruct Hin.
  - cbn [for_of]. rewrite exec_bind.
    rewrite (total_unit _ (loadContact_total a)).
    destruct (loadContact_quiet a w Hq) as [Hq' Hc].
    destruct Hin as [->|Hin].
    + apply (preserves_for_of _ cs loadContact
               (fun y => loadContact_keeps_contact _ y)).
      exists (contactOfChat c). rewrite Hc.
      split; [apply lookup_insert_eq | reflexivity].
    + apply IH; assumption.
Qed.

(** X16.  When the fetch and the writes succeed, every participating chat
    has a Contact stored under its chat identifier after the sync. *)
Theorem sync_stores_every_chat (w : World) (sk : WASocket)
    (c : string * option string) :
  sock (this w) = Some sk ->
  quiet (script w) ->
  In c (chats w) ->
  contact_at (fst c) (exec loadContacts w).
Proof.
  intros Hs Hq Hin.
  assert (Hn : next_succeeds w).
  { unfold next_succeeds. destruct (script w) as [|o rest]; [auto|].
    inversion Hq as [|? ? <- _]. eauto. }
  unfold exec. rewrite (loadContacts_run w sk Hs Hn).
  destruct (attempt_ok (GroupFetchAllParticipating (sockId sk)) w Hn)
    as (_ & _ & Hsc & _).
  assert (Hq' : quiet
                  (script (exec (attempt
                     (GroupFetchAllParticipating (sockId sk))) w))).
  { rewrite Hsc. destruct (script w); [constructor|].
    inversion Hq; assumption. }
  apply (sync_loop_quiet (chats w) _ c Hq' Hin).
Qed.

Lemma sync_stores_every_chat_witness :
  contact_at "120363@g.us" (exec loadContacts world_open).
Proof.
  apply (sync_stores_every_chat world_open
           {| sockId := 0; user := Some "4915112345:7@s.whatsapp.net" |}
           ("120363@g.us", Some "Family"));
    [reflexivity | constructor | left; reflexivity].
Defined.

(** ** Outbound dispatch, continued *)

Ltac quiet_script H :=
  repeat (apply Forall_cons in H; destruct H as [<- H]).

(** X17.  On an open connection with no failure ahead, [sendMessage]
    returns the Message it stored: filed under the normalized chat
    identifier, from the account identity (the chat identifier when the
    socket has none), stamped with the current time and marked as ours.  It
    appends exactly that Message, creates the Contact only when the chat
    was unknown, emits no event and leaves the Session and the service
    as they were. *)
Theorem send_success (w : World) (to content : string) (sk : WASocket) :
  sock (this w) = Some sk ->
  sessionConnected (Storage.session (db w)) = true ->
  quiet (script w) ->
  let w' := exec (sendMessage to content) w in
  let m := outboundMessage sk to content (now w) in
  result (sendMessage to content) w = Ok m /\
  Storage.messages (db w') = Storage.messages (db w) ++ [m] /\
  Storage.contacts (db w') =
    match Storage.getContact (normalizeChatId to) (db w) with
    | Some _ => Storage.contacts (db w)
    | None =>
        <[normalizeChatId to := outboundContact to]> (Storage.contacts (db w))
    end /\
  Storage.session (db w') = Storage.session (db w) /\
  this w' = this w /\ emitted w' = emitted w /\ timers w' = timers w.
Proof.
  destruct w as [[s i ini q] d em co ti tr sc nw m0 ch nx]. simpl.
  intros -> Hc Hq.
  destruct (Storage.getContact (normalizeChatId to) d) eqn:Eg;
    destruct sc as [|o1 [|o2 [|o3 rest]]]; quiet_script Hq;
    unfold sendMessage; primitives; simpl; rewrite Hc; simpl;
    unfold Storage.getContact in *; rewrite Eg; simpl; repeat split.
Qed.

Lemma send_success_witness :
  let w' := exec (sendMessage "1234567890" "hi") world_open in
  result (sendMessage "1234567890" "hi") world_open =
    Ok {| Storage.chatId := "1234567890@s.whatsapp.net";
          Storage.from := "4915112345:7@s.whatsapp.net";
          Storage.to := "1234567890@s.whatsapp.net";
          Storage.body := "hi";
          Storage.timestamp := 1700000000000;
          Storage.isFromMe := true |} /\
  length (Storage.messages (db w')) = 1 /\
  Storage.getContact "1234567890@s.whatsapp.net" (db w')
    = Some (outboundContact "1234567890") /\
  emitted w' = emitted world_open.
Proof.
  destruct (send_success world_open "1234567890" "hi"
              {| sockId := 0; user := Some "4915112345:7@s.whatsapp.net" |})
    as (H1 & H2 & H3 & _ & _ & H4 & _);
    [reflexivity | reflexivity | constructor |].
  cbv zeta in H2, H3.
  split; [exact H1|]. split; [rewrite H2; reflexivity|].
  split; [|exact H4].
  unfold Storage.getContact. rewrite H3. reflexivity.
Defined.

(** X18.  [sendMessage] never overwrites a Contact it already knows: when
    the store holds a Contact under the normalized chat identifier, the
    Contacts are the same after the call, whatever its outcome. *)
Theorem send_keeps_known_contact (w : World) (to content : string)
    (c : Storage.Contact) :
  Storage.getContact (normalizeChatId to) (db w) = Some c ->
  Storage.contacts (db (exec (sendMessage to content) w))
    = Storage.contacts (db w).
Proof.
  destruct w as [[s i ini q] d em co ti tr sc nw m0 ch nx]. simpl.
  intros Eg.
  destruct s as [sk|], (sessionConnected (Storage.session d)) eqn:Hc,
    sc as [|[|e1] [|[|e2] rest]];
    unfold sendMessage; primitives; simpl; rewrite ?Hc; simpl;
    unfold Storage.getContact in *; rewrite ?Eg; reflexivity.
Qed.

Lemma send_keeps_known_contact_witness :
  let w1 := exec (handleIncomingMessages [item1]) world_open in
  Storage.getContact "111@s.whatsapp.net" (db w1) = Some (inboundContact item1) /\
  Storage.contacts (db (exec (sendMessage "111@s.whatsapp.net" "hi") w1))
    = Storage.contacts (db w1).
Proof.
  split; [reflexivity|].
  apply (send_keeps_known_contact _ "111@s.whatsapp.net" "hi"
           (inboundContact item1)).
  reflexivity.
Defined.

(** X19.  When the transport rejects the send, [sendMessage] logs the
    failure and throws an error with the message of the failure, or with
    "Failed to send message" when the failure has an empty message; the
    transport was called once with the normalized identifier, and neither a
    Contact nor a Message has been written. *)
Theorem send_transport_failure (w : World) (to content : string)
    (sk : WASocket) (e : Exn) (rest : list Outcome) :
  sock (this w) = Some sk ->
  sessionConnected (Storage.session (db w)) = true ->
  script w = Fails e :: rest ->
  let w' := exec (sendMessage to content) w in
  result (sendMessage to content) w =
    Thrown (Error (if Js.truthy (error_message e) then error_message e
                   else "Failed to send message")) /\
  trace w' = trace w ++ [SockSendMessage (sockId sk) (normalizeChatId to) content] /\
  db w' = db w /\
  console w' = console w ++ [ConsoleError "Error sending message:" e].
Proof.
  destruct w as [[s i ini q] d em co ti tr sc nw m0 ch nx]. simpl.
  intros -> Hc ->.
  unfold sendMessage. primitives. simpl. rewrite Hc. simpl. repeat split.
Qed.

Lemma send_transport_failure_witness :
  let w' := exec (sendMessage "1234567890" "hi") world_send_fails in
  result (sendMessage "1234567890" "hi") world_send_fails =
    Thrown (Error "Failed to send message") /\
  trace w' =
    trace world_send_fails ++
    [SockSendMessage 0 "1234567890@s.whatsapp.net" "hi"] /\
  db w' = db world_send_fails /\
  console w' =
    console world_send_fails ++
    [ConsoleError "Error sending message:" (Error "")].
Proof.
  apply (send_transport_failure world_send_fails "1234567890" "hi"
           {| sockId := 0; user := Some "4915112345:7@s.whatsapp.net" |}
           (Error "") []); reflexivity.
Defined.

(** ** Disconnect, continued *)

(** An [initialize()] on a service that is not marked initialized calls
    the transport. *)
Lemma initialize_attempts (i : SocketIOServer) (w : World) :
  isInitialized (this w) = false ->
  exists calls,
    trace (exec (initialize i) w) =
    trace w ++ UseMultiFileAuthState "./.sessions/baileys" :: calls.
Proof.
  intros H. unfold initialize, console_log.
  rewrite exec_bind, result_gets, exec_gets, H.
  rewrite exec_bind, result_modify, exec_modify.
  rewrite exec_bind, result_modify, exec_modify.
  rewrite exec_bind, result_modify, exec_modify.
  match goal with
  | |- context [exec (try_catch connectToWhatsApp ?h) ?W] =>
      assert (Ht : trace (exec (try_catch connectToWhatsApp h) W)
                   = trace (exec connectToWhatsApp W));
      [ unfold exec at 1; rewrite run_try_catch;
        destruct (result connectToWhatsApp W); reflexivity
      | rewrite Ht; destruct (connect_first_call W) as [calls Hc];
        exists calls; rewrite Hc; reflexivity ]
  end.
Qed.

(** X20.  When [disconnect()] returns, the socket handle is null, the
    manager is not marked initialized, and the Session is disconnected with
    [phoneNumber] and [qrCode] null; the logout was sent only if there was
    a socket.  A following [initialize()] starts over: it calls the
    transport again. *)
Theorem disconnect_success (w : World) :
  result disconnect w = Ok tt ->
  let w' := exec disconnect w in
  result getClient w' = Ok None /\
  isInitialized (this w') = false /\
  io (this w') = io (this w) /\
  (exists r,
     Storage.session (db w') = Some r /\
     Storage.isConnected r = false /\
     Storage.phoneNumber r = None /\ Storage.qrCode r = None) /\
  trace w' =
    trace w ++
    match sock (this w) with
    | Some sk => [SockLogout (sockId sk); UpdateSession closedUpdate]
    | None => [UpdateSession closedUpdate]
    end /\
  forall i, exists calls,
    trace (exec (initialize i) w') =
    trace w' ++ UseMultiFileAuthState "./.sessions/baileys" :: calls.
Proof.
  intros Hr w'.
  assert (H : result getClient w' = Ok None /\
              isInitialized (this w') = false /\
              io (this w') = io (this w) /\
              (exists r,
                 Storage.session (db w') = Some r /\
                 Storage.isConnected r = false /\
                 Storage.phoneNumber r = None /\ Storage.qrCode r = None) /\
              trace w' =
                trace w ++
                match sock (this w) with
                | Some sk => [SockLogout (sockId sk); UpdateSession closedUpdate]
                | None => [UpdateSession closedUpdate]
                end).
  { subst w'. revert Hr.
    destruct w as [[s i ini q] d em co ti tr sc nw m0 ch nx].
    destruct s as [sk|], sc as [|[|e1] [|[|e2] rest]];
      unfold disconnect, getClient; primitives; simpl;
      intros Hr; try discriminate; rewrite <- ?app_assoc; simpl;
      repeat split; eexists; repeat split. }
  destruct H as (H1 & H2 & H3 & H4 & H5).
  repeat (split; [assumption|]).
  intros i. apply initialize_attempts. exact H2.
Qed.

Lemma disconnect_success_witness :
  let w' := exec disconnect world_open in
  result getClient w' = Ok None /\
  isInitialized (this w') = false /\
  trace w' =
    trace world_open ++ [SockLogout 0; UpdateSession closedUpdate] /\
  exists calls,
    trace (exec (initialize server) w') =
    trace w' ++ UseMultiFileAuthState "./.sessions/baileys" :: calls.
Proof.
  destruct (disconnect_success world_open eq_refl)
    as (H1 & H2 & _ & _ & H3 & H4).
  split; [exact H1|]. split; [exact H2|]. split; [exact H3|].
  apply H4.
Defined.

(** X21.  When the logout succeeds and the Session write that follows
    fails, [disconnect()] throws with the socket handle already null, the
    store untouched and the manager still marked initialized if it was: a
    following [initialize()] then does nothing but log, although there is no
    socket. *)
Theorem disconnect_write_failure (w : World) (sk : WASocket) (e : Exn)
    (rest : list Outcome) :
  sock (this w) = Some sk ->
  script w = Succeeds :: Fails e :: rest ->
  let w' := exec disconnect w in
  result disconnect w = Thrown e /\
  result getClient w' = Ok None /\
  isInitialized (this w') = isInitialized (this w) /\
  db w' = db w /\
  (isInitialized (this w) = true ->
   forall i,
     initialize i w' =
     (Ok tt,
      with_console
        (fun l => l ++ [ConsoleLog "WhatsApp service already initialized"])
        w')).
Proof.
  intros Hs Hsc w'.
  assert (H : result disconnect w = Thrown e /\
              result getClient w' = Ok None /\
              isInitialized (this w') = isInitialized (this w) /\
              db w' = db w).
  { subst w'.
    destruct w as [[s i ini q] d em co ti tr sc nw m0 ch nx].
    simpl in Hs, Hsc. subst s sc.
    unfold disconnect, getClient. primitives. simpl. repeat split. }
  destruct H as (H1 & H2 & H3 & H4).
  repeat (split; [assumption|]).
  intros Hi i. apply initialize_when_initialized. rewrite H3. exact Hi.
Qed.

Lemma disconnect_write_failure_witness :
  let w' := exec disconnect world_disconnect_write_fails in
  result disconnect world_disconnect_write_fails
    = Thrown (Error "database unavailable") /\
  result getClient w' = Ok None /\
  db w' = db world_disconnect_write_fails /\
  initialize server w' =
    (Ok tt,
     with_console
       (fun l => l ++ [ConsoleLog "WhatsApp service already initialized"])
       w').
Proof.
  destruct (disconnect_write_failure world_disconnect_write_fails
              {| sockId := 0; user := Some "4915112345:7@s.whatsapp.net" |}
              (Error "database unavailable") [] eq_refl eq_refl)
    as (H1 & H2 & _ & H3 & H4).
  split; [exact H1|]. split; [exact H2|]. split; [exact H3|].
  apply H4. reflexivity.
Defined.

(** ** Initialization, continued *)

(** X22.  When [initialize(io)] returns on a manager that was not marked
    initialized, the manager is marked initialized, emits on the given
    server, and [getClient()] gives the new socket, on which the three
    listeners are registered; the store is untouched. *)
Theorem initialize_success (i : SocketIOServer) (w : World) :
  isInitialized (this w) = false ->
  result (initialize i) w = Ok tt ->
  let w' := exec (initialize i) w in
  isInitialized (this w') = true /\
  io (this w') = Some i /\
  result getClient w' = Ok (Some {| sockId := nextSock w; user := me w |}) /\
  trace w' = trace w ++ connect_calls (nextSock w) /\
  db w' = db w /\ timers w' = timers w.
Proof.
  destruct w as [[s j ini q] d em co ti tr sc nw m ch nx]. simpl.
  intros ->.
  destruct sc as [|[|e1] [|[|e2] [|[|e3] s3]]];
    unfold initialize, connectToWhatsApp, getClient, connect_calls;
    primitives; simpl; intros H; try discriminate;
    rewrite <- ?app_assoc; simpl; repeat split.
Qed.

Lemma initialize_success_witness :
  let w' := exec (initialize server) fresh_world in
  isInitialized (this w') = true /\
  io (this w') = Some server /\
  result getClient w' = Ok (Some {| sockId := 0; user := None |}) /\
  trace w' = connect_calls 0 /\
  db w' = db fresh_world /\ timers w' = [].
Proof.
  apply (initialize_success server fresh_world); reflexivity.
Defined.

(** X23.  When [initialize(io)] throws on a manager that was not marked
    initialized, the failure of [connectToWhatsApp] is the error thrown and
    the last line logged; the socket and the store are as before, but the
    manager is marked initialized and bound to the given server. *)
Theorem initialize_failure (i : SocketIOServer) (w : World) (e : Exn) :
  isInitialized (this w) = false ->
  result (initialize i) w = Thrown e ->
  let w' := exec (initialize i) w in
  isInitialized (this w') = true /\
  io (this w') = Some i /\
  sock (this w') = sock (this w) /\
  db w' = db w /\ timers w' = timers w /\
  last (console w')
    = Some (ConsoleError "Failed to initialize WhatsApp service:" e).
Proof.
  destruct w as [[s j ini q] d em co ti tr sc nw m ch nx]. simpl.
  intros ->.
  destruct sc as [|[|e1] [|[|e2] [|[|e3] s3]]];
    unfold initialize, connectToWhatsApp;
    primitives; simpl; intros H; try discriminate;
    injection H as <-; repeat split; apply last_snoc.
Qed.

Lemma initialize_failure_witness :
  let w' := exec (initialize server) world_connect_refused in
  isInitialized (this w') = true /\
  io (this w') = Some server /\
  sock (this w') = sock (this world_connect_refused) /\
  db w' = db world_connect_refused /\
  timers w' = timers world_connect_refused /\
  last (console w')
    = Some (ConsoleError "Failed to initialize WhatsApp service:"
              (Error "ECONNREFUSED")).
Proof.
  apply (initialize_failure server world_connect_refused
           (Error "ECONNREFUSED")); reflexivity.
Defined.
